(** * ADSKSpark.Client: token store and authorization header resolution

    A shallow embedding of [src/sdk/src/Client.js].  The JavaScript the file
    relies on is modelled first (values, JSON, the conversions and operators
    the file uses, [localStorage], [Date.now], promises and the HTTP
    transport); the functions of the file follow, one definition per
    function, in the order of the source; the lemmas and theorems come last.

    Code with effects is a function from the state it runs in to its outcome
    (a value or a thrown error) and the state it leaves.  Asynchronous code
    is run until nothing is left to run: a function that returns a promise
    yields the promise as it ends up (fulfilled, rejected, or pending for
    ever), and the callbacks run one after the other, in the order in which
    the promises settle; operations are not interleaved.

    The values are those of JSON and of plain code: primitives, arrays and
    plain objects, none of which holds a function.  A string is held as the
    bytes of its UTF-8 encoding.  A number is a double whose value is an
    integer, [NaN] or an infinity; fractions are outside the model.
    [localStorage] accepts every write.

    [openLoginWindow] only hands the URL of [getLoginRedirectUrl] to the
    pop-up helper of the SDK; it is left out. *)

From Stdlib Require Import ZArith String Ascii List DecimalString.
From stdpp Require Import base option list gmap strings.

Set Warnings "-register-all".
Local Open Scope string_scope.
Local Open Scope Z_scope.

(** ** JavaScript values *)

(** Numbers.  Every number the program computes is a time in milliseconds,
    the result of [parseInt], a product or a sum of these.  [Int z] is the
    double whose value is the integer [z], for the integers that are the
    value of one: all of them up to [2 ^ 53], and beyond that those that
    [double] below gives; the model also has [NaN] and the two infinities.
    Zero and negative zero are both [Int 0]: no operation of the program
    tells them apart. *)
Inductive number :=
| Int (z : Z)
| NaN
| Infinity (negative : bool).

(** A JSON document, as [JSON.parse] reads it and [JSON.stringify] writes it.
    An object is a finite map from member names to documents; a number is
    the integer that is the value of the double read. *)
Inductive json :=
| JNull
| JBool (b : bool)
| JNum (z : Z)
| JStr (s : string)
| JArr (elems : list json)
| JObj (members : gmap string json).

(** A value in memory.  An array carries, besides its elements, the named
    properties assigned to it ([a.expires_at = ...] is legal on an array). *)
Inductive value :=
| VUndefined
| VNull
| VBool (b : bool)
| VNum (n : number)
| VStr (s : string)
| VArr (elems : list value) (props : gmap string value)
| VObj (props : gmap string value).

(** What [localStorage] holds under a key is a string.  The program only ever
    hands such a string to [JSON.parse], so a string is represented by what
    [JSON.parse] makes of it: text that is not JSON (a [SyntaxError]), or the
    text of a document. *)
Inductive text :=
| NotJSON
| Json (j : json).

(** An error: the message of an [Error] is a string, or [undefined] when the
    error was made without one. *)
Inductive error :=
| SyntaxError
| TypeError
| Error (message : value)
| Reason (r : value).

(** The outcome of running a piece of code: a value, or a thrown error. *)
Inductive completion (A : Type) :=
| Normal (a : A)
| Throw (e : error).
Arguments Normal {A} a.
Arguments Throw {A} e.

(** The rest of a computation runs on the value of a first part that did
    not throw. *)
Definition and_then {A B} (c : completion A) (k : A -> completion B) : completion B :=
  match c with
  | Normal a => k a
  | Throw e => Throw e
  end.

Notation "'let?' x ':=' c 'in' k" := (and_then c (fun x => k))
  (at level 10, x name, c at level 100, k at level 200,
   format "'[v' 'let?'  x  ':='  c  'in' '/' k ']'").

(** A promise, observed once the event loop has run dry: fulfilled, rejected,
    or still pending (it will never settle). *)
Inductive promise (A : Type) :=
| Fulfilled (a : A)
| Rejected (e : error)
| Pending.
Arguments Fulfilled {A} a.
Arguments Rejected {A} e.
Arguments Pending {A}.

(** ** Numbers *)

(** The double nearest to an integer: an integer up to [2 ^ 53] is a double;
    beyond that the 53 leading bits are kept, rounded to the nearest, to the
    even one of two that are as near; from [2 ^ 1024] on the result is an
    infinity. *)
Definition double (z : Z) : number :=
  let n := Z.abs z in
  if n <=? 2 ^ 53 then Int z
  else
    let k := Z.log2 n - 52 in
    let q := n / 2 ^ k in
    let r := n mod 2 ^ k in
    let half := 2 ^ (k - 1) in
    let q := if (half <? r) || ((r =? half) && Z.odd q) then q + 1 else q in
    if 2 ^ 1024 <=? q * 2 ^ k then Infinity (z <? 0)
    else Int (Z.sgn z * (q * 2 ^ k)).

(** [a + b] and [a * b] on numbers. *)
Definition nadd (a b : number) : number :=
  match a, b with
  | Int x, Int y => double (x + y)
  | Int _, Infinity s | Infinity s, Int _ => Infinity s
  | Infinity s, Infinity t => if Bool.eqb s t then Infinity s else NaN
  | _, _ => NaN
  end.

Definition nmul (a b : number) : number :=
  match a, b with
  | Int x, Int y => double (x * y)
  | Int x, Infinity s | Infinity s, Int x =>
      if x =? 0 then NaN else Infinity (xorb s (x <? 0))
  | Infinity s, Infinity t => Infinity (xorb s t)
  | _, _ => NaN
  end.

(** [a < b] on numbers; a comparison with [NaN] is false. *)
Definition nlt (a b : number) : bool :=
  match a, b with
  | Int x, Int y => x <? y
  | Int _, Infinity s => negb s
  | Infinity s, Int _ => s
  | Infinity s, Infinity t => s && negb t
  | _, _ => false
  end.

(** The decimal numeral of an integer. *)
Definition string_of_Z (z : Z) : string := NilZero.string_of_int (Z.to_int z).

(** *** [Number.prototype.toString] *)

(** The decimal numeral [c] reads as the double [x]. *)
Definition reads_as (x c : Z) : bool :=
  match double c with
  | Int y => y =? x
  | _ => false
  end.

(** The numeral with the fewest significant digits among those that read as
    the double [x], for [x] positive; of several, the nearest to [x], and of
    two that are as near, the one whose last digit is even.  [p] is the power
    of ten that the numerals tried are multiples of: it starts at the first
    digit of [x] and ends at [1], where [x] itself is found. *)
Fixpoint shortest_from (x p : Z) (fuel : nat) : Z :=
  match fuel with
  | O => x
  | S fuel' =>
      let lo := x / p * p in
      let hi := lo + p in
      match reads_as x lo, reads_as x hi with
      | true, true =>
          if x - lo <? hi - x then lo
          else if hi - x <? x - lo then hi
          else if Z.even (x / p) then lo else hi
      | true, false => lo
      | false, true => hi
      | false, false => shortest_from x (p / 10) fuel'
      end
  end.

Definition shortest (x : Z) : Z :=
  let n := String.length (string_of_Z x) in
  shortest_from x (10 ^ (Z.of_nat n - 1)) n.

Fixpoint strip_trailing_zeros (s : string) : string :=
  match s with
  | EmptyString => EmptyString
  | String c s' =>
      match strip_trailing_zeros s' with
      | EmptyString => if Ascii.eqb c "0" then EmptyString else String c EmptyString
      | rest => String c rest
      end
  end.

(** The numeral [v] in exponent notation: [d.ddde+n]. *)
Definition exponential (v : Z) : string :=
  let digits := string_of_Z v in
  let e := "e+" +:+ string_of_Z (Z.of_nat (String.length digits) - 1) in
  match strip_trailing_zeros digits with
  | String d EmptyString => String d e
  | String d rest => String d ("." +:+ rest +:+ e)
  | EmptyString => digits
  end.

(** The string of a number: an integer up to [2 ^ 53] is written with all its
    digits; a larger one with the digits of its shortest numeral, followed
    by zeros below [10 ^ 21] and in exponent notation from there on. *)
Definition Number_toString (n : number) : string :=
  match n with
  | NaN => "NaN"
  | Infinity false => "Infinity"
  | Infinity true => "-Infinity"
  | Int z =>
      if Z.abs z <=? 2 ^ 53 then string_of_Z z
      else
        let v := shortest (Z.abs z) in
        (if z <? 0 then "-" else "")
        +:+ (if v <? 10 ^ 21 then string_of_Z v else exponential v)
  end.

(** ** JSON *)

(** The value [JSON.parse] builds from a document. *)
Fixpoint of_json (j : json) : value :=
  match j with
  | JNull => VNull
  | JBool b => VBool b
  | JNum z => VNum (Int z)
  | JStr s => VStr s
  | JArr l => VArr (of_json <$> l) ∅
  | JObj m => VObj (of_json <$> m)
  end.

(** The document [JSON.stringify] writes for a value: [undefined] has none; a
    member whose value is [undefined] is left out, an [undefined] element of
    an array is written [null], [NaN] and the infinities are written [null],
    and the named properties of an array are not written. *)
Fixpoint to_json (v : value) : option json :=
  match v with
  | VUndefined => None
  | VNull => Some JNull
  | VBool b => Some (JBool b)
  | VNum (Int z) => Some (JNum z)
  | VNum NaN | VNum (Infinity _) => Some JNull
  | VStr s => Some (JStr s)
  | VArr l _ => Some (JArr ((λ e, default JNull (to_json e)) <$> l))
  | VObj m => Some (JObj (omap to_json m))
  end.

(** [JSON.stringify(v)], as the argument of [localStorage.setItem] or of
    [JSON.parse]: where [JSON.stringify] returns [undefined], the string
    used is ["undefined"], which is not JSON. *)
Definition JSON_stringify (v : value) : text :=
  match to_json v with
  | Some j => Json j
  | None => NotJSON
  end.

(** [JSON.parse(x)] for [x] the result of [localStorage.getItem] (a string, or
    [null] when the key is absent: [JSON.parse(null)] is [null]). *)
Definition JSON_parse (x : option text) : completion value :=
  match x with
  | None => Normal VNull
  | Some NotJSON => Throw SyntaxError
  | Some (Json j) => Normal (of_json j)
  end.

(** ** Conversions and operators *)

(** [ToBoolean]. *)
Definition truthy (v : value) : bool :=
  match v with
  | VUndefined | VNull => false
  | VBool b => b
  | VNum (Int z) => negb (z =? 0)
  | VNum NaN => false
  | VNum (Infinity _) => true
  | VStr s => negb (String.eqb s "")
  | VArr _ _ | VObj _ => true
  end.

(** [v.p], for the property names of the program, none of which is a built-in
    property of a string, an array or [Object.prototype]. *)
Definition get (v : value) (p : string) : completion value :=
  match v with
  | VUndefined | VNull => Throw TypeError
  | VBool _ | VNum _ | VStr _ => Normal VUndefined
  | VArr _ m | VObj m => Normal (default VUndefined (m !! p))
  end.

(** [v.p = x] in strict code (the file starts with ['use strict']); the
    result is the object after the assignment. *)
Definition set (v : value) (p : string) (x : value) : completion value :=
  match v with
  | VArr l m => Normal (VArr l (<[p := x]> m))
  | VObj m => Normal (VObj (<[p := x]> m))
  | _ => Throw TypeError
  end.

(** [delete v.p]; the result is the object after the deletion. *)
Definition delete_ (v : value) (p : string) : completion value :=
  match v with
  | VUndefined | VNull => Throw TypeError
  | VArr l m => Normal (VArr l (delete p m))
  | VObj m => Normal (VObj (delete p m))
  | _ => Normal v
  end.

(** The object has a member of this name of its own. *)
Definition has_own (m : gmap string value) (p : string) : bool :=
  bool_decide (is_Some (m !! p)).

(** The string of a value, when the value can be converted to one.  An
    object is converted by its [toString] method, which is that of
    [Object.prototype], or of [Array.prototype] for an array, unless the
    object has a member [toString] of its own: no member is a function, the
    inherited [valueOf] returns the object itself, and there is no string.
    An array is joined with commas by its inherited [join], [null] and
    [undefined] elements giving the empty string, unless it has a member
    [join] of its own. *)
Fixpoint string_of (v : value) : option string :=
  match v with
  | VUndefined => Some "undefined"
  | VNull => Some "null"
  | VBool true => Some "true"
  | VBool false => Some "false"
  | VNum n => Some (Number_toString n)
  | VStr s => Some s
  | VArr l m =>
      if has_own m "toString" then None
      else if has_own m "join" then Some "[object Array]"
      else
        String.concat "," <$>
          (fix join (l : list value) : option (list string) :=
             match l with
             | [] => Some []
             | e :: l' =>
                 s ← match e with
                     | VUndefined | VNull => Some ""
                     | _ => string_of e
                     end;
                 rest ← join l';
                 Some (s :: rest)
             end) l
  | VObj m =>
      if has_own m "toString" then None
      else Some "[object Object]"
  end.

(** [ToString]: a value that has no string throws a [TypeError]. *)
Definition ToString (v : value) : completion string :=
  match string_of v with
  | Some s => Normal s
  | None => Throw TypeError
  end.

(** [ToPrimitive], with or without a hint: on the objects of the model the
    result is that of [ToString], whichever of [valueOf] and [toString] is
    tried first. *)
Definition ToPrimitive (v : value) : completion value :=
  match v with
  | VArr _ _ | VObj _ => let? s := ToString v in Normal (VStr s)
  | _ => Normal v
  end.

(** *** [parseInt] *)

(** White space in front of a numeral: the first one, two or three bytes are
    a character of white space or a line terminator (U+0009 to U+000D,
    U+0020, U+00A0, U+1680, U+2000 to U+200A, U+2028, U+2029, U+202F,
    U+205F, U+3000, U+FEFF). *)
Definition is_space (c : ascii) : bool :=
  let n := nat_of_ascii c in
  ((9 <=? n) && (n <=? 13))%nat || (n =? 32)%nat.

Definition is_space2 (a b : ascii) : bool :=
  ((nat_of_ascii a =? 194) && (nat_of_ascii b =? 160))%nat.

Definition is_space3 (a b c : ascii) : bool :=
  let '(a, b, c) := (nat_of_ascii a, nat_of_ascii b, nat_of_ascii c) in
  (((a =? 225) && (b =? 154) && (c =? 128))
   || ((a =? 226) && (b =? 128)
       && (((128 <=? c) && (c <=? 138)) || (c =? 168) || (c =? 169) || (c =? 175)))
   || ((a =? 226) && (b =? 129) && (c =? 159))
   || ((a =? 227) && (b =? 128) && (c =? 128))
   || ((a =? 239) && (b =? 187) && (c =? 191)))%nat.

Fixpoint skip_space (s : string) : string :=
  match s with
  | String a s1 =>
      if is_space a then skip_space s1
      else match s1 with
           | String b s2 =>
               if is_space2 a b then skip_space s2
               else match s2 with
                    | String c s3 => if is_space3 a b c then skip_space s3 else s
                    | EmptyString => s
                    end
           | EmptyString => s
           end
  | EmptyString => s
  end.

Definition digit_of (radix : Z) (c : ascii) : option Z :=
  let n := Z.of_nat (nat_of_ascii c) in
  let d := if (48 <=? n) && (n <=? 57) then Some (n - 48)
           else if (97 <=? n) && (n <=? 102) then Some (n - 87)
           else if (65 <=? n) && (n <=? 70) then Some (n - 55)
           else None in
  match d with
  | Some k => if k <? radix then Some k else None
  | None => None
  end.

(** The longest prefix of digits, read in [radix]; [acc] is what has been read
    so far ([None]: no digit yet). *)
Fixpoint read_digits (radix : Z) (s : string) (acc : option Z) : option Z :=
  match s with
  | String c s' =>
      match digit_of radix c with
      | Some d => read_digits radix s' (Some (radix * default 0 acc + d))
      | None => acc
      end
  | EmptyString => acc
  end.

(** [parseInt] of a string: leading white space, a sign, [0x] or [0X] for
    base 16, then the longest prefix of digits; [NaN] when there is none,
    and the double nearest to the integer read otherwise. *)
Definition parseInt_string (s : string) : number :=
  let s := skip_space s in
  let '(sign, s) :=
    match s with
    | String "-" s' => (-1, s')
    | String "+" s' => (1, s')
    | _ => (1, s)
    end in
  let '(radix, s) :=
    match s with
    | String "0" (String "x" s') | String "0" (String "X" s') => (16, s')
    | _ => (10, s)
    end in
  match read_digits radix s None with
  | Some n => double (sign * n)
  | None => NaN
  end.

(** [parseInt(v)]: the argument is converted to a string first, a number
    too. *)
Definition parseInt (v : value) : completion number :=
  let? s := ToString v in
  Normal (parseInt_string s).

(** [new Error(message)]: the message is converted to a string, unless it is
    [undefined]. *)
Definition new_Error (message : value) : completion error :=
  match message with
  | VUndefined => Normal (Error VUndefined)
  | _ =>
      let? s := ToString message in
      Normal (Error (VStr s))
  end.

(** *** Comparison of strings *)

(** Strings are compared by their UTF-16 code units.  On UTF-8 this is the
    order of the bytes, except that a character from U+E000 to U+FFFF (first
    byte 238 or 239) comes after the characters beyond U+FFFF (first byte
    240 to 244), which UTF-16 writes with surrogates. *)
Definition unit_rank (c : ascii) : N :=
  let n := N_of_ascii c in
  (if (238 <=? n) && (n <=? 239) then n + 16 else n)%N.

Fixpoint string_lt (s t : string) : bool :=
  match s, t with
  | _, EmptyString => false
  | EmptyString, String _ _ => true
  | String a s', String b t' =>
      if (unit_rank a <? unit_rank b)%N then true
      else if (unit_rank b <? unit_rank a)%N then false
      else string_lt s' t'
  end.

(** *** [String.prototype.split] *)

(** [s.split(sep)] for a separator that is not empty: the pieces of [s]
    between the occurrences of [sep], found from left to right.  [skip] counts
    the characters of an occurrence still to pass over, [piece] is the piece
    read so far. *)
Fixpoint split_from (sep : string) (skip : nat) (piece s : string) : list string :=
  match s with
  | EmptyString => [piece]
  | String c s' =>
      match skip with
      | S k => split_from sep k piece s'
      | O =>
          if String.prefix sep s
          then piece :: split_from sep (String.length sep - 1) "" s'
          else split_from sep 0 (piece +:+ String c "") s'
      end
  end.

Definition split (s sep : string) : list string := split_from sep 0 "" s.

(** ** The platform: storage, clock, transport *)

(** A call of the HTTP transport: [ADSKSpark.Request(url, null, options)
    .get(undefined, params)]. *)
Record request := Request {
  url : value;
  params : value;
  withCredentials : bool }.

(** What the transport answers to a call: how the promise it returned
    settles, and the time that passes until then. *)
Record reply := Reply {
  elapsed : Z;
  settled : promise value }.

(** What the program takes from outside [Client.js]: the conversion of a
    string to a number (used when a stored [expires_at] that is not a number
    is compared with the time), the server behind the transport, the
    [Helpers] of the SDK and its constants. *)
Record platform := Platform {
  StringToNumber : string -> number;
  respond : request -> reply;
  calculateRedirectUri : value;
  extractRedirectionCode : value;
  extractRedirectionTokenData : value;
  API_HOST_PROD : value;
  API_HOST_SANDBOX : value }.

(** The variables of the module. *)
Record config := Config {
  _clientId : value;
  _apiUrl : value;
  _guestTokenUrl : value;
  _accessTokenUrl : value;
  _refreshTokenUrl : value;
  _redirectUri : value }.

(** The state the program runs in: its variables, [localStorage], the clock
    read by [Date.now()], and the calls made to the transport so far. *)
Record world := World {
  vars : config;
  localStorage : gmap string text;
  clock : Z;
  sent : list request }.

(** The variables as the module declares them. *)
Definition initial_config : config :=
  Config (VStr "") (VStr "") (VStr "") (VStr "") (VStr "") (VStr "").

(** *** Code with effects *)

Definition M (A : Type) : Type := world -> completion A * world.

Definition ret {A} (a : A) : M A := fun w => (Normal a, w).

Definition throw {A} (e : error) : M A := fun w => (Throw e, w).

Definition bind {A B} (c : M A) (k : A -> M B) : M B :=
  fun w =>
    match c w with
    | (Normal a, w') => k a w'
    | (Throw e, w') => (Throw e, w')
    end.

Definition lift {A} (c : completion A) : M A := fun w => (c, w).

Notation "'let!' x ':=' c 'in' k" := (bind c (fun x => k))
  (at level 10, x name, c at level 100, k at level 200,
   format "'[v' 'let!'  x  ':='  c  'in' '/' k ']'").
Notation "'do!' c 'in' k" := (bind c (fun _ => k))
  (at level 10, c at level 100, k at level 200,
   format "'[v' 'do!'  c  'in' '/' k ']'").

Definition the (f : config -> value) : M value := fun w => (Normal (f (vars w)), w).

Definition Date_now : M number := fun w => (Normal (Int (clock w)), w).

Definition getItem (key : string) : M (option text) :=
  fun w => (Normal (localStorage w !! key), w).

Definition setItem (key : string) (t : text) : M unit :=
  fun w => (Normal tt, World (vars w) (<[key := t]> (localStorage w)) (clock w) (sent w)).

Definition removeItem (key : string) : M unit :=
  fun w => (Normal tt, World (vars w) (delete key (localStorage w)) (clock w) (sent w)).

(** [a && b]: [b] is evaluated only when [a] is truthy. *)
Definition and_ (a : value) (b : M value) : M value :=
  if truthy a then b else ret a.

(** [a || b], with [b] a value. *)
Definition or_ (a b : value) : value := if truthy a then a else b.

(** *** Promises *)

(** [p.then(cb)]: the promise derived from [p] by a callback that returns a
    value or a promise, or throws. *)
Definition then_ {A B} (p : promise A) (cb : A -> M (promise B)) : M (promise B) :=
  match p with
  | Fulfilled a =>
      fun w =>
        match cb a w with
        | (Normal q, w') => (Normal q, w')
        | (Throw e, w') => (Normal (Rejected e), w')
        end
  | Rejected e => ret (Rejected e)
  | Pending => ret Pending
  end.

(** [new Promise(function (resolve) { ... })]: the executor is given as the
    code that computes the argument of its call of [resolve] ([None] when it
    returns without that call being made, now or later).  An executor that
    throws rejects the promise. *)
Definition new_Promise (executor : M (option value)) : M (promise value) :=
  fun w =>
    match executor w with
    | (Normal (Some v), w') => (Normal (Fulfilled v), w')
    | (Normal None, w') => (Normal Pending, w')
    | (Throw e, w') => (Normal (Rejected e), w')
    end.

Definition resolve (v : value) : M (option value) := ret (Some v).

(** [p.then(function (x) { resolve(cb x); })] inside an executor: [resolve] is
    called when [p] is fulfilled and the callback does not throw; nothing
    handles a rejection of [p]. *)
Definition then_resolve (p : promise value) (cb : value -> M value) : M (option value) :=
  match p with
  | Fulfilled a =>
      fun w =>
        match cb a w with
        | (Normal v, w') => (Normal (Some v), w')
        | (Throw _, w') => (Normal None, w')
        end
  | Rejected _ | Pending => ret None
  end.

Section Client.

Variable env : platform.

(** [ToNumber]. *)
Definition ToNumber (v : value) : completion number :=
  let? p := ToPrimitive v in
  Normal match p with
         | VUndefined => NaN
         | VNull => Int 0
         | VBool b => Int (if b then 1 else 0)
         | VNum n => n
         | VStr s => StringToNumber env s
         | VArr _ _ | VObj _ => NaN
         end.

(** [a < b]: the two sides are converted to primitives; two strings are
    compared as strings, anything else as numbers. *)
Definition lt (a b : value) : completion bool :=
  let? pa := ToPrimitive a in
  let? pb := ToPrimitive b in
  match pa, pb with
  | VStr s, VStr t => Normal (string_lt s t)
  | _, _ =>
      let? x := ToNumber pa in
      let? y := ToNumber pb in
      Normal (nlt x y)
  end.

(** [a > b]. *)
Definition gt (a b : value) : completion bool := lt b a.

(** [a + b]: the two sides are converted to primitives; concatenation when
    one of them is a string, addition otherwise. *)
Definition add (a b : value) : completion value :=
  let? pa := ToPrimitive a in
  let? pb := ToPrimitive b in
  match pa, pb with
  | VStr s, _ =>
      let? t := ToString pb in
      Normal (VStr (s +:+ t))
  | _, VStr t =>
      let? s := ToString pa in
      Normal (VStr (s +:+ t))
  | _, _ =>
      let? x := ToNumber pa in
      let? y := ToNumber pb in
      Normal (VNum (nadd x y))
  end.

(** The transport: the call is recorded, the server answers, time passes. *)
Definition Request_get (r : request) : M (promise value) :=
  fun w =>
    (Normal (settled (respond env r)),
     World (vars w) (localStorage w) (clock w + elapsed (respond env r)) (sent w ++ [r])).

(** ** Client.js *)

Definition GUEST_TOKEN_KEY : string := "spark-guest-token".
Definition ACCESS_TOKEN_KEY : string := "spark-access-token".

(** [now + parseInt(expiresIn) * 1000] *)
Definition expiry (now : number) (expiresIn : value) : completion value :=
  let? seconds := parseInt expiresIn in
  Normal (VNum (nadd now (nmul seconds (Int 1000)))).

Definition getGuestTokenFromServer : M (promise value) :=
  let! guestTokenUrl := the _guestTokenUrl in
  if truthy guestTokenUrl then
    let! p := Request_get (Request guestTokenUrl VUndefined false) in
    then_ p (fun data =>
      let! now := Date_now in
      let! expires_in := lift (get data "expires_in") in
      let! expires_at := lift (expiry now expires_in) in
      let! data := lift (set data "expires_at" expires_at) in
      do! setItem GUEST_TOKEN_KEY (JSON_stringify data) in
      let! access_token := lift (get data "access_token") in
      ret (Fulfilled access_token))
  else
    ret (Rejected (Error (VStr "No Server Implementation"))).

Definition completeImplicitLogin (accessToken expiresIn : value) : M value :=
  let data := VObj ∅ in
  let! data := lift (set data "access_token" accessToken) in
  let! now := Date_now in
  let! expires_at := lift (expiry now expiresIn) in
  let! data := lift (set data "expires_at" expires_at) in
  do! setItem ACCESS_TOKEN_KEY (JSON_stringify data) in
  lift (get data "access_token").

Definition completeServerLogin (code : value) : M (promise value) :=
  let params := VObj {[ "code" := code ]} in
  let! redirectUri := the _redirectUri in
  let! params :=
    if truthy redirectUri
    then lift (set params "redirect_uri" redirectUri)
    else lift (set params "redirect_uri" (calculateRedirectUri env)) in
  let! accessTokenUrl := the _accessTokenUrl in
  if truthy accessTokenUrl then
    let! p := Request_get (Request accessTokenUrl params true) in
    then_ p (fun data =>
      let! ok :=
        and_ data (
          let! expires_in := lift (get data "expires_in") in
          and_ expires_in (lift (get data "access_token"))) in
      if truthy ok then
        let! now := Date_now in
        let! expires_in := lift (get data "expires_in") in
        let! expires_at := lift (expiry now expires_in) in
        let! data := lift (set data "expires_at" expires_at) in
        let! data := lift (delete_ data "refresh_token") in
        do! setItem ACCESS_TOKEN_KEY (JSON_stringify data) in
        let! access_token := lift (get data "access_token") in
        ret (Fulfilled access_token)
      else
        let! message := lift (get data "Error") in
        let! error := lift (new_Error message) in
        ret (Rejected error))
  else
    ret (Rejected (Error (VStr "No Server Implementation"))).

(** *** ADSKSpark.Client *)

Definition initialize (appKey options : value) : M unit :=
  let! apiRoot := and_ options (lift (get options "apiRoot")) in
  let! apiUrl :=
    if truthy apiRoot then lift (get options "apiRoot")
    else
      let! isProduction := and_ options (lift (get options "isProduction")) in
      ret (if truthy isProduction then API_HOST_PROD env else API_HOST_SANDBOX env) in
  let! redirectUri :=
    (let! given := and_ options (lift (get options "redirectUri")) in
     if truthy given then lift (get options "redirectUri") else ret VNull) in
  let! guestTokenUrl :=
    (let! given := and_ options (lift (get options "guestTokenUrl")) in
     if truthy given then lift (get options "guestTokenUrl") else ret VNull) in
  let! accessTokenUrl :=
    (let! given := and_ options (lift (get options "accessTokenUrl")) in
     if truthy given then lift (get options "accessTokenUrl") else ret VNull) in
  let! refreshTokenUrl :=
    (let! given := and_ options (lift (get options "refreshTokenUrl")) in
     if truthy given then lift (get options "refreshTokenUrl") else ret VNull) in
  fun w =>
    (Normal tt,
     World (Config appKey apiUrl guestTokenUrl accessTokenUrl refreshTokenUrl redirectUri)
           (localStorage w) (clock w) (sent w)).

(** [_apiUrl.split] is a function only when [_apiUrl] is a string. *)
Definition getApiName : M value :=
  let name := "" in
  let! apiUrl := the _apiUrl in
  if truthy apiUrl then
    match apiUrl with
    | VStr s =>
        let pieces := split s "//" in
        let name :=
          if (1 <? Z.of_nat (length pieces))
          then default "" (head (split (default "" (pieces !! 1%nat)) "."))
          else name in
        let name := if String.eqb name "api" then "production" else name in
        ret (VStr name)
    | _ => throw TypeError
    end
  else ret (VStr name).

Definition getLoginRedirectUrl (showRegisterScreen isServerLogin : value) : M value :=
  let responseType := if truthy isServerLogin then VStr "code" else VStr "token" in
  let! configured := the _redirectUri in
  let redirectUri := or_ configured (calculateRedirectUri env) in
  let! apiUrl := the _apiUrl in
  let! clientId := the _clientId in
  let! apiRedirectUrl := lift (add apiUrl (VStr "/oauth/authorize?response_type=")) in
  let! apiRedirectUrl := lift (add apiRedirectUrl responseType) in
  let! apiRedirectUrl := lift (add apiRedirectUrl (VStr "&client_id=")) in
  let! apiRedirectUrl := lift (add apiRedirectUrl clientId) in
  let! apiRedirectUrl := lift (add apiRedirectUrl (VStr "&redirect_uri=")) in
  let! apiRedirectUrl := lift (add apiRedirectUrl redirectUri) in
  if truthy showRegisterScreen
  then lift (add apiRedirectUrl (VStr "&register=true"))
  else ret apiRedirectUrl.

Definition logout : M unit :=
  removeItem ACCESS_TOKEN_KEY.

Definition isAccessTokenValid : M bool :=
  let! item := getItem ACCESS_TOKEN_KEY in
  let! accessToken := lift (JSON_parse item) in
  let! now := Date_now in
  let! expired :=
    and_ accessToken (
      let! expires_at := lift (get accessToken "expires_at") in
      and_ expires_at (
        let! expires_at := lift (get accessToken "expires_at") in
        let! before := lift (lt expires_at (VNum now)) in
        ret (VBool before))) in
  do! (if truthy expired then logout else ret tt) in
  let! valid :=
    and_ accessToken (
      let! expires_at := lift (get accessToken "expires_at") in
      and_ expires_at (
        let! expires_at := lift (get accessToken "expires_at") in
        let! after := lift (gt expires_at (VNum now)) in
        ret (VBool after))) in
  ret (truthy valid).

Definition getAccessTokenObject : M value :=
  let! item := getItem ACCESS_TOKEN_KEY in
  let! accessToken := lift (JSON_parse item) in
  let! present := and_ accessToken (lift (get accessToken "access_token")) in
  if truthy present then ret accessToken else ret VNull.

Definition getAccessToken : M value :=
  let! item := getItem ACCESS_TOKEN_KEY in
  let! accessToken := lift (JSON_parse item) in
  let! present := and_ accessToken (lift (get accessToken "access_token")) in
  if truthy present then lift (get accessToken "access_token") else ret VNull.

Definition getGuestToken : M (promise value) :=
  let! item := getItem GUEST_TOKEN_KEY in
  let! token := lift (JSON_parse item) in
  let! now := Date_now in
  let! token :=
    if negb (truthy token) then
      let! item := getItem ACCESS_TOKEN_KEY in
      lift (JSON_parse item)
    else ret token in
  let! valid :=
    and_ token (
      let! expires_at := lift (get token "expires_at") in
      and_ expires_at (
        let! expires_at := lift (get token "expires_at") in
        let! after := lift (gt expires_at (VNum now)) in
        ret (VBool after))) in
  if truthy valid then
    let! access_token := lift (get token "access_token") in
    ret (Fulfilled access_token)
  else
    getGuestTokenFromServer.

Definition refreshAccessToken : M (promise value) :=
  let! refreshTokenUrl := the _refreshTokenUrl in
  if truthy refreshTokenUrl then
    let! p := Request_get (Request refreshTokenUrl VUndefined true) in
    then_ p (fun data =>
      let! err := lift (get data "Error") in
      let! data :=
        if negb (truthy err) then
          let! now := Date_now in
          let! expires_in := lift (get data "expires_in") in
          let! expires_at := lift (expiry now expires_in) in
          let! data := lift (set data "expires_at" expires_at) in
          let! clonedData := lift (JSON_parse (Some (JSON_stringify data))) in
          let! clonedData := lift (delete_ clonedData "refresh_token") in
          do! setItem ACCESS_TOKEN_KEY (JSON_stringify clonedData) in
          ret data
        else ret data in
      ret (Fulfilled data))
  else
    ret (Rejected (Error (VStr "No Server Implementation"))).

(** The object [ADSKSpark.Request(url, authorization, options)] that the two
    request builders return: [authorization] is the callback that resolves
    the authorization header just before the call is sent. *)
Record api_request := ApiRequest {
  request_url : value;
  authorization : M (promise value);
  request_options : value }.

Definition formatAuthHeader (token : value) : M value :=
  if truthy token then
    let! access_token := lift (get token "access_token") in
    lift (add (VStr "Bearer ") access_token)
  else ret VNull.

Definition authorizedApiRequest (endpoint options : value) : M api_request :=
  let options := or_ options (VObj ∅) in
  let! apiUrl := the _apiUrl in
  let! url := lift (add apiUrl endpoint) in
  ret (ApiRequest url
    (new_Promise (
      let! item := getItem ACCESS_TOKEN_KEY in
      let! token := lift (JSON_parse item) in
      if truthy token then
        let! now := Date_now in
        let! refreshTokenUrl := the _refreshTokenUrl in
        let! expired :=
          and_ refreshTokenUrl (
            let! expires_at := lift (get token "expires_at") in
            and_ expires_at (
              let! expires_at := lift (get token "expires_at") in
              let! after := lift (gt (VNum now) expires_at) in
              ret (VBool after))) in
        if truthy expired then
          let! p := refreshAccessToken in
          then_resolve p (fun refreshedToken => formatAuthHeader refreshedToken)
        else
          let! header := formatAuthHeader token in
          resolve header
      else
        resolve VNull))
    options).

Definition authorizedAsGuestApiRequest (endpoint options : value) : M api_request :=
  let options := or_ options (VObj ∅) in
  let! apiUrl := the _apiUrl in
  let! url := lift (add apiUrl endpoint) in
  ret (ApiRequest url
    (new_Promise (
      let! p := getGuestToken in
      then_resolve p (fun token =>
        if truthy token then lift (add (VStr "Bearer ") token) else ret VNull)))
    options).

(** [code.replace(/[\/\\]+$/, '')] on a string: the trailing slashes and
    backslashes are dropped. *)
Fixpoint strip_trailing_slashes (s : string) : string :=
  match s with
  | EmptyString => EmptyString
  | String c s' =>
      match strip_trailing_slashes s' with
      | EmptyString =>
          if (Ascii.eqb c "/" || Ascii.eqb c "\")%bool then EmptyString
          else String c EmptyString
      | rest => String c rest
      end
  end.

Definition completeLogin (isServer : value) : M (promise value) :=
  if truthy isServer then
    let code := extractRedirectionCode env in
    if truthy code then
      match code with
      | VStr s => completeServerLogin (VStr (strip_trailing_slashes s))
      | _ => throw TypeError
      end
    else
      ret (Rejected (Error (VStr "No code supplied")))
  else
    let data := extractRedirectionTokenData env in
    let! present := and_ data (lift (get data "access_token")) in
    if truthy present then
      let! access_token := lift (get data "access_token") in
      let! expires_in := lift (get data "expires_in") in
      let! token := completeImplicitLogin access_token expires_in in
      ret (Fulfilled token)
    else
      ret (Rejected (Error (VStr "No access_token supplied"))).

Definition _switchApiURL (url : value) : M unit :=
  fun w =>
    (Normal tt,
     World (Config (_clientId (vars w)) url (_guestTokenUrl (vars w))
                   (_accessTokenUrl (vars w)) (_refreshTokenUrl (vars w))
                   (_redirectUri (vars w)))
           (localStorage w) (clock w) (sent w)).

End Client.

(** ** What a stored token is good for *)

(** [v.p] where it cannot throw. *)
Definition prop (v : value) (p : string) : value :=
  match get v p with
  | Normal x => x
  | Throw _ => VUndefined
  end.

(** [token && token.expires_at && cmp(token.expires_at)], as a boolean: the
    comparison is made, and may throw, only when the token and its
    [expires_at] are truthy. *)
Definition guard (token : value) (cmp : value -> completion bool) : completion bool :=
  if truthy token && truthy (prop token "expires_at")
  then cmp (prop token "expires_at")
  else Normal false.

(** [token && token.expires_at && token.expires_at > now]: the token can
    be used. *)
Definition usable (env : platform) (token : value) (now : Z) : completion bool :=
  guard token (fun e => gt env e (VNum (Int now))).

(** [token && token.expires_at && token.expires_at < now]: the token is
    removed by [isAccessTokenValid]. *)
Definition lapsed (env : platform) (token : value) (now : Z) : completion bool :=
  guard token (fun e => lt env e (VNum (Int now))).

(** The state after [logout]. *)
Definition remove_access (w : world) : world :=
  World (vars w) (delete ACCESS_TOKEN_KEY (localStorage w)) (clock w) (sent w).

(** The size of a document, for induction on documents. *)
Fixpoint json_size (j : json) : nat :=
  match j with
  | JArr l => S (sum_list (json_size <$> l))
  | JObj m => S (map_fold (fun _ j' n => json_size j' + n)%nat 0%nat m)
  | _ => 1
  end.

(** The member [p] of a document, if it is an object that has one. *)
Definition member (j : json) (p : string) : option json :=
  match j with
  | JObj m => m !! p
  | _ => None
  end.


(** [options && options.name], the test [initialize] makes for an option. *)
Definition option_of (options : value) (name : string) : value :=
  if truthy options then prop options name else options.

(** [options && options.name ? options.name : null], the value [initialize]
    gives to the variable of an option. *)
Definition option_or_null (options : value) (name : string) : value :=
  if truthy (option_of options name) then prop options name else VNull.

(** The access-token slot after an operation holds what it held before, or
    a document that has no [refresh_token] member. *)
Definition kept_or_clean (before after : world) : Prop :=
  localStorage after !! ACCESS_TOKEN_KEY = localStorage before !! ACCESS_TOKEN_KEY
  \/ exists j, localStorage after !! ACCESS_TOKEN_KEY = Some (Json j)
       /\ member j "refresh_token" = None.

(** The callback that resolves the authorization header of a request built
    by [authorizedApiRequest] or [authorizedAsGuestApiRequest]. *)
Definition header_of (built : completion api_request * world) : M (promise value) :=
  match built.1 with
  | Normal r => authorization r
  | Throw e => throw e
  end.

(** The builder did not throw: there is a request. *)
Definition built (b : completion api_request * world) : Prop :=
  exists r, b.1 = Normal r.

(** A value that can be converted to a primitive: anything but an object or
    an array with a member [toString] of its own, or an array that is
    joined and has such an element. *)
Definition convertible (v : value) : bool :=
  match string_of v with
  | Some _ => true
  | None => false
  end.

(** A slot that the resolution of a header can read without throwing: it is
    absent, or holds a document whose [expires_at] and [access_token], if it
    is a record, can be converted to a primitive. *)
Definition plain_slot (x : option text) : bool :=
  match x with
  | None => true
  | Some NotJSON => false
  | Some (Json j) =>
      convertible (prop (of_json j) "expires_at")
      && convertible (prop (of_json j) "access_token")
  end.

(** An integer that is the value of a double, as every integer up to
    [2 ^ 53] is: a sum or a product that is one is computed without
    rounding. *)
Definition exact (z : Z) : Prop := double z = Int z.

(** A number that is neither [NaN] nor an infinity. *)
Definition finite (n : number) : bool :=
  match n with
  | Int _ => true
  | NaN | Infinity _ => false
  end.

Definition not_rejected {A} (p : promise A) : Prop :=
  match p with
  | Rejected _ => False
  | _ => True
  end.

(** The code that returns a promise did not throw, and the promise is not
    rejected: it is fulfilled or pending. *)
Definition does_not_reject {A} (r : completion (promise A) * world) : Prop :=
  match r.1 with
  | Normal p => not_rejected p
  | Throw _ => False
  end.

(** ** Notions for the further properties *)

(** The state after a call [r] to the transport. *)
Definition called (env : platform) (r : request) (w : world) : world :=
  World (vars w) (localStorage w) (clock w + elapsed (respond env r)) ((sent w ++ [r])%list).

(** The calls that the three operations with a server make. *)
Definition guest_call (w : world) : request :=
  Request (_guestTokenUrl (vars w)) VUndefined false.

Definition refresh_call (w : world) : request :=
  Request (_refreshTokenUrl (vars w)) VUndefined true.

Definition exchange_call (env : platform) (code : value) (w : world) : request :=
  Request (_accessTokenUrl (vars w))
    (VObj (<["redirect_uri" := or_ (_redirectUri (vars w)) (calculateRedirectUri env)]>
             {[ "code" := code ]}))
    true.

(** An operation that took [w] to [w'] has left the variables of the module
    alone, has written under no key but [slot], and has made at most one
    call to the transport, after those made before. *)
Definition confined (slot : string) (w w' : world) : Prop :=
  vars w' = vars w
  /\ (forall key, key <> slot -> localStorage w' !! key = localStorage w !! key)
  /\ (sent w' = sent w \/ exists r, sent w' = (sent w ++ [r])%list).

(** [data && data.expires_in && data.access_token], the test of
    [completeServerLogin] on the answer of the server. *)
Definition exchanged (data : value) : bool :=
  truthy data && truthy (prop data "expires_in") && truthy (prop data "access_token").

(** The error that [completeServerLogin] rejects with when the answer fails
    its test: [new Error(data.Error)], or what the making of it throws. *)
Definition refusal (data : value) : error :=
  match (let? message := get data "Error" in new_Error message) with
  | Normal error => error
  | Throw e => e
  end.

(** Strings of slashes and backslashes; strings that end with one. *)
Definition is_slash (c : ascii) : bool := (Ascii.eqb c "/" || Ascii.eqb c "\")%bool.

Fixpoint all_slashes (s : string) : bool :=
  match s with
  | EmptyString => true
  | String c s' => is_slash c && all_slashes s'
  end.

Fixpoint ends_in_slash (s : string) : bool :=
  match s with
  | EmptyString => false
  | String c EmptyString => is_slash c
  | String _ s' => ends_in_slash s'
  end.

(** The character [c] occurs in [s]. *)
Fixpoint occurs (c : ascii) (s : string) : bool :=
  match s with
  | EmptyString => false
  | String c' s' => Ascii.eqb c c' || occurs c s'
  end.

(** [_refreshTokenUrl && token.expires_at && now > token.expires_at], the
    test by which [authorizedApiRequest] refreshes a token. *)
Definition refresh_due (env : platform) (w : world) (token : value) : completion bool :=
  if truthy (_refreshTokenUrl (vars w)) && truthy (prop token "expires_at")
  then gt env (VNum (Int (clock w))) (prop token "expires_at")
  else Normal false.

(** The header ["Bearer " + token]. *)
Definition bearer (token : value) : completion value :=
  let? s := ToString token in
  Normal (VStr ("Bearer " +:+ s)).

(** How a promise ends when the code that was to resolve it has returned
    [c]: it is fulfilled with the value, or rejected with the error thrown,
    as is the promise of an executor that calls [resolve] at once, or a
    promise derived by [then]. *)
Definition settle {A} (c : completion A) : promise A :=
  match c with
  | Normal a => Fulfilled a
  | Throw e => Rejected e
  end.

(** How the promise of the header ends when the code that formats the
    header runs in a callback of [then]: what the callback throws is not
    handled and [resolve] is not called. *)
Definition resolved_later {A} (c : completion A) : promise A :=
  match c with
  | Normal a => Fulfilled a
  | Throw _ => Pending
  end.

(** ** States and platforms for the examples *)

(** A [StringToNumber] that reads decimal integer literals; the examples
    compare no string with a number. *)
Definition decimal_literal (s : string) : number :=
  if String.eqb s "" then Int 0
  else match NilZero.int_of_string s with
       | Some d => double (Z.of_int d)
       | None => NaN
       end.

(** A platform whose server gives the same answer to every call, a quarter of
    a second later. *)
Definition example_platform (answer : promise value) : platform :=
  Platform decimal_literal (fun _ => Reply 250 answer)
    (VStr "https://app.example/callback") (VStr "abc123///") VUndefined
    (VStr "https://api.example") (VStr "https://sandbox.example").

(** A server that does not answer. *)
Definition silent : platform := example_platform Pending.

(** The variables after [initialize(appKey)] without options, and after an
    initialization that names the three servers. *)
Definition bare_config : config :=
  Config (VStr "app") (VStr "https://sandbox.example") VNull VNull VNull VNull.

Definition full_config : config :=
  Config (VStr "app") (VStr "https://sandbox.example")
    (VStr "https://auth.example/guest") (VStr "https://auth.example/access")
    (VStr "https://auth.example/refresh") VNull.

(** The document [{"access_token": token, "expires_at": expires_at}]. *)
Definition token_record (token : string) (expires_at : Z) : gmap string json :=
  {[ "access_token" := JStr token; "expires_at" := JNum expires_at ]}.

(** A state at time [now] with the given contents of the two slots. *)
Definition state (c : config) (guest access : option text) (now : Z) : world :=
  World c
    (from_option (fun t => <[GUEST_TOKEN_KEY := t]>) id guest
       (from_option (fun t => <[ACCESS_TOKEN_KEY := t]>) id access ∅))
    now [].

(** What the example server sends for a token. *)
Definition issued : value :=
  VObj {[ "access_token" := VStr "fresh";
          "expires_in" := VNum (Int 3600);
          "refresh_token" := VStr "secret" ]}.

(** A server that sends a token, one that reports an error, one that fails. *)
Definition issuing : platform := example_platform (Fulfilled issued).

Definition refusing : platform :=
  example_platform (Fulfilled (VObj {[ "Error" := VStr "invalid grant" ]})).

Definition failing : platform :=
  example_platform (Rejected (Reason (VStr "network error"))).

(** A server that sends a token whose lifetime has no string. *)
Definition oddity : gmap string value :=
  {[ "access_token" := VStr "fresh";
     "expires_in" := VObj {[ "toString" := VNum (Int 1) ]} ]}.

Definition garbling : platform := example_platform (Fulfilled (VObj oddity)).


Definition garbled_state : world :=
  state bare_config (Some NotJSON) (Some NotJSON) 10.

Definition expired_state : world :=
  state bare_config None (Some (Json (JObj (token_record "user" 5)))) 10.

Definition current_state : world :=
  state bare_config None (Some (Json (JObj (token_record "user" 9000)))) 10.

Definition stale_guest_state : world :=
  state full_config (Some (Json (JObj (token_record "guest" 5))))
    (Some (Json (JObj (token_record "user" 9000)))) 10.

Definition guest_state : world :=
  state bare_config (Some (Json (JObj (token_record "guest" 9000))))
    (Some (Json (JObj (token_record "user" 9000)))) 10.

(** A state whose access-token slot holds [{"access_token": {"toString": 1}}]:
    a token that has no string. *)
Definition unprintable_state : world :=
  state bare_config None
    (Some (Json (JObj {[ "access_token" := JObj {[ "toString" := JNum 1 ]} ]}))) 10.

(** With the three servers configured: an expired access token, and an
    empty storage. *)
Definition refreshable_state : world :=
  state full_config None (Some (Json (JObj (token_record "user" 5)))) 10.

Definition empty_state : world := state full_config None None 10.

(** Platforms whose redirection brought nothing, and brought a token. *)
Definition no_redirection : platform :=
  Platform decimal_literal (fun _ => Reply 250 Pending)
    (VStr "https://app.example/callback") VUndefined VUndefined
    (VStr "https://api.example") (VStr "https://sandbox.example").

Definition implicit_redirection : platform :=
  Platform decimal_literal (fun _ => Reply 250 Pending)
    (VStr "https://app.example/callback") VUndefined
    (VObj {[ "access_token" := VStr "user"; "expires_in" := VStr "3600" ]})
    (VStr "https://api.example") (VStr "https://sandbox.example").

(** A state whose API is at the given URL. *)
Definition state_at (apiUrl : value) : world :=
  World (Config (VStr "app") apiUrl VNull VNull VNull VNull) ∅ 10 [].

(** * Lemmas *)

Lemma bind_val {A B} (c : M A) (k : A -> M B) w a w' :
  c w = (Normal a, w') -> bind c k w = k a w'.
Proof. intros H. unfold bind. by rewrite H. Qed.

Lemma bind_throw {A B} (c : M A) (k : A -> M B) w e w' :
  c w = (Throw e, w') -> bind c k w = (Throw e, w').
Proof. intros H. unfold bind. by rewrite H. Qed.

Lemma bind_bind {A B C} (c : M A) (f : A -> M B) (g : B -> M C) w :
  bind (bind c f) g w = bind c (fun a => bind (f a) g) w.
Proof. unfold bind. by destruct (c w) as [[a|e] w']. Qed.

(** One step of a computation whose first action is known. *)
Ltac step := rewrite ?bind_bind; erewrite bind_val by reflexivity.

Lemma truthy_get (v : value) (p : string) :
  truthy v = true -> get v p = Normal (prop v p).
Proof. unfold prop. by destruct v. Qed.

(** *** Conversions *)

(** A comparison with a number throws only when the other side cannot be
    converted, whichever way the comparison goes. *)
Lemma lt_number env (v : value) (n : number) :
  match lt env v (VNum n), gt env v (VNum n) with
  | Normal _, Normal _ => convertible v = true
  | Throw e, Throw e' => e = TypeError /\ e' = TypeError /\ convertible v = false
  | _, _ => False
  end.
Proof.
  unfold gt, lt, convertible, ToPrimitive, ToNumber, ToPrimitive, ToString.
  destruct v as [| |[]|m|s|l m|m]; try done.
  all: by destruct (string_of _).
Qed.

(** The guard [token && token.expires_at && cmp(token.expires_at)] changes
    nothing, and throws only what the comparison throws. *)
Lemma guard_run (token : value) (cmp : value -> completion bool) (w : world) :
  match guard token cmp with
  | Normal b =>
      exists v,
        and_ token (
          let! expires_at := lift (get token "expires_at") in
          and_ expires_at (
            let! expires_at := lift (get token "expires_at") in
            let! b := lift (cmp expires_at) in
            ret (VBool b))) w = (Normal v, w)
        /\ truthy v = b
  | Throw e =>
      and_ token (
        let! expires_at := lift (get token "expires_at") in
        and_ expires_at (
          let! expires_at := lift (get token "expires_at") in
          let! b := lift (cmp expires_at) in
          ret (VBool b))) w = (Throw e, w)
  end.
Proof.
  unfold guard, and_. destruct (truthy token) eqn:Ht; cbn [andb].
  - rewrite (bind_val _ _ w (prop token "expires_at") w)
      by (unfold lift; by rewrite truthy_get).
    destruct (truthy (prop token "expires_at")) eqn:He.
    + rewrite (bind_val _ _ w (prop token "expires_at") w)
        by (unfold lift; by rewrite truthy_get).
      destruct (cmp (prop token "expires_at")) as [b|e] eqn:Hc.
      * rewrite (bind_val _ _ w b w) by done. by eexists.
      * by rewrite (bind_throw _ _ w e w) by done.
    + eexists. split; [reflexivity|]. done.
  - eexists. split; [reflexivity|]. done.
Qed.

(** The two guards of [isAccessTokenValid] throw together. *)
Lemma lapsed_usable env (token : value) (now : Z) :
  match lapsed env token now, usable env token now with
  | Normal _, Normal _ => True
  | Throw e, Throw e' => e = TypeError /\ e' = TypeError
  | _, _ => False
  end.
Proof.
  unfold lapsed, usable, guard.
  destruct (truthy token && truthy (prop token "expires_at")); [|done].
  pose proof (lt_number env (prop token "expires_at") (Int now)) as H.
  destruct (lt env _ _), (gt env _ _); try done. by destruct H as (-> & -> & _).
Qed.

Lemma isAccessTokenValid_run env w :
  isAccessTokenValid env w =
    match JSON_parse (localStorage w !! ACCESS_TOKEN_KEY) with
    | Normal token =>
        match lapsed env token (clock w), usable env token (clock w) with
        | Normal before, Normal after =>
            (Normal after, if before then remove_access w else w)
        | _, _ => (Throw TypeError, w)
        end
    | Throw e => (Throw e, w)
    end.
Proof.
  unfold isAccessTokenValid.
  rewrite (bind_val _ _ w (localStorage w !! ACCESS_TOKEN_KEY) w) by done.
  destruct (JSON_parse _) as [token|e] eqn:Hp.
  - rewrite (bind_val _ _ w token w) by done.
    rewrite (bind_val _ _ w (Int (clock w)) w) by done.
    pose proof (lapsed_usable env token (clock w)) as Hboth.
    pose proof (guard_run token (fun e => lt env e (VNum (Int (clock w)))) w) as H1.
    fold (lapsed env token (clock w)) in H1.
    destruct (lapsed env token (clock w)) as [before|e1].
    + destruct H1 as (v1 & Hr1 & Ht1).
      rewrite (bind_val _ _ _ _ _ Hr1). rewrite Ht1.
      destruct (usable env token (clock w)) as [after|e2] eqn:Hu; [|done].
      destruct before.
      * rewrite (bind_val _ _ w tt (remove_access w)) by done.
        pose proof (guard_run token (fun e => gt env e (VNum (Int (clock w))))
                      (remove_access w)) as H2.
        fold (usable env token (clock w)) in H2. rewrite Hu in H2.
        destruct H2 as (v2 & Hr2 & Ht2).
        change (clock (remove_access w)) with (clock w).
        rewrite (bind_val _ _ _ _ _ Hr2). by rewrite Ht2.
      * rewrite (bind_val _ _ w tt w) by done.
        pose proof (guard_run token (fun e => gt env e (VNum (Int (clock w)))) w) as H2.
        fold (usable env token (clock w)) in H2. rewrite Hu in H2.
        destruct H2 as (v2 & Hr2 & Ht2).
        rewrite (bind_val _ _ _ _ _ Hr2). by rewrite Ht2.
    + rewrite (bind_throw _ _ _ _ _ H1).
      destruct (usable env token (clock w)); [done|]. by destruct Hboth as [-> _].
  - by rewrite (bind_throw _ _ w e w).
Qed.

(** *** Induction on documents *)

Lemma json_size_elem (l : list json) (j : json) :
  j ∈ l -> (json_size j < json_size (JArr l))%nat.
Proof.
  cbn [json_size]. induction 1 as [j l|j j' l _ IH]; cbn [fmap list_fmap sum_list] in *.
  all: unfold id in *; lia.
Qed.

Lemma json_size_member (m : gmap string json) (k : string) (j : json) :
  m !! k = Some j -> (json_size j < json_size (JObj m))%nat.
Proof.
  intros H. cbn [json_size].
  rewrite <- (insert_delete_id m k j H).
  rewrite map_fold_insert_L; [lia| |apply lookup_delete_eq].
  intros. lia.
Qed.

Lemma json_ind' (P : json -> Prop) :
  P JNull -> (forall b, P (JBool b)) -> (forall z, P (JNum z)) -> (forall s, P (JStr s)) ->
  (forall l, Forall P l -> P (JArr l)) ->
  (forall m, map_Forall (fun _ => P) m -> P (JObj m)) ->
  forall j, P j.
Proof.
  intros Hnull Hbool Hnum Hstr Harr Hobj j.
  remember (json_size j) as n eqn:Hn. revert j Hn.
  induction (lt_wf n) as [n _ IH]. intros j ->.
  destruct j as [| | | |l|m]; auto.
  - apply Harr, Forall_forall. intros j Hj.
    eapply IH; [|reflexivity]. by apply json_size_elem.
  - apply Hobj. intros k j Hj.
    eapply IH; [|reflexivity]. by eapply json_size_member.
Qed.

(** Writing a document that was just read gives the document back. *)
Lemma to_json_of_json (j : json) : to_json (of_json j) = Some j.
Proof.
  induction j as [| | | |l IH|m IH] using json_ind'; cbn [of_json to_json]; try done.
  - f_equal. f_equal. induction IH as [|j l Hj _ IHl]; [done|].
    cbn [fmap list_fmap] in *. rewrite Hj. cbn [default from_option id]. by f_equal.
  - f_equal. f_equal. apply map_eq. intros k.
    rewrite lookup_omap, lookup_fmap.
    destruct (m !! k) as [j|] eqn:Hk; [|done].
    cbn. by apply (IH k j).
Qed.

(** ** The reading operations *)

Lemma getAccessTokenObject_run w :
  getAccessTokenObject w =
    match JSON_parse (localStorage w !! ACCESS_TOKEN_KEY) with
    | Normal token =>
        (Normal (if truthy token && truthy (prop token "access_token")
                 then token else VNull), w)
    | Throw e => (Throw e, w)
    end.
Proof.
  unfold getAccessTokenObject.
  rewrite (bind_val _ _ w (localStorage w !! ACCESS_TOKEN_KEY) w) by done.
  destruct (JSON_parse _) as [token|e]; [|by rewrite (bind_throw _ _ w e w)].
  rewrite (bind_val _ _ w token w) by done.
  unfold and_. destruct (truthy token) eqn:Ht.
  - rewrite (bind_val _ _ w (prop token "access_token") w)
      by (unfold lift; by rewrite truthy_get).
    by destruct (truthy (prop token "access_token")).
  - rewrite (bind_val _ _ w token w) by done. by rewrite Ht.
Qed.

Lemma getAccessToken_run w :
  getAccessToken w =
    match JSON_parse (localStorage w !! ACCESS_TOKEN_KEY) with
    | Normal token =>
        (Normal (if truthy token && truthy (prop token "access_token")
                 then prop token "access_token" else VNull), w)
    | Throw e => (Throw e, w)
    end.
Proof.
  unfold getAccessToken.
  rewrite (bind_val _ _ w (localStorage w !! ACCESS_TOKEN_KEY) w) by done.
  destruct (JSON_parse _) as [token|e]; [|by rewrite (bind_throw _ _ w e w)].
  rewrite (bind_val _ _ w token w) by done.
  unfold and_. destruct (truthy token) eqn:Ht.
  - rewrite (bind_val _ _ w (prop token "access_token") w)
      by (unfold lift; by rewrite truthy_get).
    destruct (truthy (prop token "access_token")); [|done].
    unfold lift. by rewrite truthy_get.
  - rewrite (bind_val _ _ w token w) by done. by rewrite Ht.
Qed.

Lemma getGuestToken_run env w :
  getGuestToken env w =
    match JSON_parse (localStorage w !! GUEST_TOKEN_KEY) with
    | Normal guest =>
        match (if truthy guest then Normal guest
               else JSON_parse (localStorage w !! ACCESS_TOKEN_KEY)) with
        | Normal token =>
            match usable env token (clock w) with
            | Normal true => (Normal (Fulfilled (prop token "access_token")), w)
            | Normal false => getGuestTokenFromServer env w
            | Throw e => (Throw e, w)
            end
        | Throw e => (Throw e, w)
        end
    | Throw e => (Throw e, w)
    end.
Proof.
  unfold getGuestToken.
  rewrite (bind_val _ _ w (localStorage w !! GUEST_TOKEN_KEY) w) by done.
  destruct (JSON_parse (localStorage w !! GUEST_TOKEN_KEY)) as [guest|e];
    [|by rewrite (bind_throw _ _ w e w)].
  rewrite (bind_val _ _ w guest w) by done.
  rewrite (bind_val _ _ w (Int (clock w)) w) by done.
  assert (forall token,
    (if truthy guest then Normal guest
     else JSON_parse (localStorage w !! ACCESS_TOKEN_KEY)) = Normal token ->
    (if negb (truthy guest)
     then let! item := getItem ACCESS_TOKEN_KEY in lift (JSON_parse item)
     else ret guest) w = (Normal token, w)) as Hfallback.
  { intros token. destruct (truthy guest); cbn [negb].
    - by intros [= ->].
    - intros H. by rewrite (bind_val _ _ w (localStorage w !! ACCESS_TOKEN_KEY) w), <- H. }
  destruct (if truthy guest then _ else _) as [token|e] eqn:Hf.
  - rewrite (bind_val _ _ _ _ _ (Hfallback token eq_refl)).
    pose proof (guard_run token (fun e => gt env e (VNum (Int (clock w)))) w) as Hg.
    fold (usable env token (clock w)) in Hg.
    destruct (usable env token (clock w)) as [[]|e] eqn:Hu.
    + destruct Hg as (v & Hv & Htv). rewrite (bind_val _ _ _ _ _ Hv), Htv.
      rewrite (bind_val _ _ w (prop token "access_token") w); [done|].
      unfold lift. rewrite truthy_get; [done|].
      unfold usable, guard in Hu. by destruct (truthy token).
    + destruct Hg as (v & Hv & Htv). by rewrite (bind_val _ _ _ _ _ Hv), Htv.
    + by rewrite (bind_throw _ _ _ _ _ Hg).
  - destruct (truthy guest); [done|]. cbn [negb].
    rewrite (bind_throw _ _ w e w); [done|].
    by rewrite (bind_val _ _ w (localStorage w !! ACCESS_TOKEN_KEY) w), <- Hf.
Qed.

(** A stored record with a numeric expiry. *)
Lemma usable_record env (m : gmap string json) (e now : Z) :
  m !! "expires_at" = Some (JNum e) ->
  usable env (of_json (JObj m)) now = Normal (negb (e =? 0) && (now <? e)).
Proof.
  intros He. unfold usable, guard, prop. cbn [of_json get truthy andb].
  rewrite lookup_fmap, He. cbn. by destruct (e =? 0).
Qed.

Lemma lapsed_record env (m : gmap string json) (e now : Z) :
  m !! "expires_at" = Some (JNum e) ->
  lapsed env (of_json (JObj m)) now = Normal (negb (e =? 0) && (e <? now)).
Proof.
  intros He. unfold lapsed, guard, prop. cbn [of_json get truthy andb].
  rewrite lookup_fmap, He. cbn. by destruct (e =? 0).
Qed.

Lemma guard_no_expiry (token : value) (cmp : value -> completion bool) :
  truthy (prop token "expires_at") = false -> guard token cmp = Normal false.
Proof. unfold guard. intros ->. by rewrite andb_false_r. Qed.

Lemma prop_record (m : gmap string json) (p : string) :
  prop (of_json (JObj m)) p = default VUndefined (of_json <$> m !! p).
Proof. unfold prop. cbn [of_json get]. by rewrite lookup_fmap. Qed.



(** ** The model on the examples *)

Example double_examples :
  double (2 ^ 53 + 1) = Int (2 ^ 53)
  /\ double (2 ^ 53 + 3) = Int (2 ^ 53 + 4)
  /\ double (10 ^ 23) = Int 99999999999999991611392
  /\ double (2 ^ 1024 - 2 ^ 970 - 1) = Int (2 ^ 1024 - 2 ^ 971)
  /\ double (- (2 ^ 1024 - 2 ^ 970)) = Infinity true.
Proof. repeat split. Qed.

Example Number_toString_examples :
  Number_toString (Int (- 42)) = "-42"
  /\ Number_toString (Int (2 ^ 53)) = "9007199254740992"
  /\ Number_toString (Int (2 ^ 64)) = "18446744073709552000"
  /\ Number_toString (Int (10 ^ 21)) = "1e+21"
  /\ Number_toString (Int (2 ^ 70)) = "1.1805916207174113e+21"
  /\ Number_toString (Int 99999999999999991611392) = "1e+23".
Proof. repeat split. Qed.

Example ToString_examples :
  ToString (VArr [VNum (Int 1); VNull; VArr [VStr "a"; VBool true] ∅] ∅) = Normal "1,,a,true"
  /\ ToString (VObj {[ "valueOf" := VNum (Int 1) ]}) = Normal "[object Object]"
  /\ ToString (VObj {[ "toString" := VNum (Int 1) ]}) = Throw TypeError
  /\ ToString (VArr [VObj {[ "toString" := VNull ]}] ∅) = Throw TypeError
  /\ ToString (VArr [VNum (Int 1)] {[ "join" := VNum (Int 1) ]}) = Normal "[object Array]".
Proof. repeat split. Qed.

Example parseInt_examples :
  parseInt (VStr "3600") = Normal (Int 3600)
  /\ parseInt (VStr " 12px") = Normal (Int 12)
  /\ parseInt (VStr "-0x1F") = Normal (Int (-31))
  /\ parseInt (VNum (Int 3600)) = Normal (Int 3600)
  /\ parseInt (VNum (Int (10 ^ 21))) = Normal (Int 1)
  /\ parseInt (VStr "9007199254740993") = Normal (Int 9007199254740992)
  /\ parseInt (VStr (String (ascii_of_nat 194) (String (ascii_of_nat 160) "42")))
     = Normal (Int 42)
  /\ parseInt VUndefined = Normal NaN
  /\ parseInt (VStr "") = Normal NaN
  /\ parseInt (VArr [VNum (Int 7)] ∅) = Normal (Int 7)
  /\ parseInt (VObj {[ "toString" := VNum (Int 1) ]}) = Throw TypeError.
Proof. repeat split. Qed.

Example comparison_examples :
  lt silent (VNum (Int 5)) (VNum (Int 10)) = Normal true
  /\ lt silent (VNum (Int 5)) (VNum (Infinity false)) = Normal true
  /\ lt silent (VNum (Int 5)) (VNum NaN) = Normal false
  /\ lt silent (VObj {[ "toString" := VNum (Int 1) ]}) (VNum (Int 10)) = Throw TypeError
  /\ add silent (VStr "Bearer ") (VNum (Int (10 ^ 21))) = Normal (VStr "Bearer 1e+21")
  /\ add silent (VStr "Bearer ") (VObj {[ "toString" := VNum (Int 1) ]}) = Throw TypeError
  /\ add silent (VNum (Int 1)) VNull = Normal (VNum (Int 1)).
Proof. repeat split. Qed.

(** An access token stored with [expiresIn = 0] is invalid at once, and is
    not removed as long as the clock has not moved. *)
Example implicit_login_with_no_lifetime :
  isAccessTokenValid silent
    (completeImplicitLogin (VStr "user") (VStr "0") empty_state).2
  = (Normal false,
     state full_config None (Some (Json (JObj (token_record "user" 10)))) 10).
Proof. vm_compute. reflexivity. Qed.

(** [completeLogin(true)] with the code [abc123///] in the redirection sends
    the code [abc123] to the access-token server, stores the token without
    its [refresh_token] and resolves to the token. *)
Example server_login_strips_the_code :
  (completeLogin issuing (VBool true) empty_state).1 = Normal (Fulfilled (VStr "fresh"))
  /\ sent (completeLogin issuing (VBool true) empty_state).2
     = [Request (VStr "https://auth.example/access")
          (VObj {[ "code" := VStr "abc123";
                   "redirect_uri" := VStr "https://app.example/callback" ]})
          true]
  /\ localStorage (completeLogin issuing (VBool true) empty_state).2 !! ACCESS_TOKEN_KEY
     = Some (Json (JObj {[ "access_token" := JStr "fresh";
                           "expires_in" := JNum 3600;
                           "expires_at" := JNum 3600260 ]})).
Proof. repeat split. Qed.

(** A guest token issued by the server is stored as sent, with the time of
    its expiry: the time of the answer plus [expires_in] seconds. *)
Example guest_token_round_trip :
  (getGuestToken issuing empty_state).1 = Normal (Fulfilled (VStr "fresh"))
  /\ clock (getGuestToken issuing empty_state).2 = 260
  /\ localStorage (getGuestToken issuing empty_state).2 !! GUEST_TOKEN_KEY
     = Some (Json (JObj {[ "access_token" := JStr "fresh";
                           "expires_in" := JNum 3600;
                           "expires_at" := JNum 3600260;
                           "refresh_token" := JStr "secret" ]}))
  /\ getGuestToken silent (getGuestToken issuing empty_state).2
     = (Normal (Fulfilled (VStr "fresh")), (getGuestToken issuing empty_state).2).
Proof. repeat split. Qed.

(** With an expired access token and a refresh server, the header is
    resolved by one call to that server, to the token it sends. *)
Example expired_token_is_refreshed_once :
  (header_of (authorizedApiRequest issuing (VStr "/members") VUndefined
                refreshable_state) refreshable_state).1
  = Normal (Fulfilled (VStr "Bearer fresh"))
  /\ sent (header_of (authorizedApiRequest issuing (VStr "/members") VUndefined
                        refreshable_state) refreshable_state).2
     = [Request (VStr "https://auth.example/refresh") VUndefined true].
Proof. repeat split. Qed.

(** Without a guest-token server and without a usable token, [getGuestToken]
    is rejected and no call is made. *)
Example guest_token_without_server :
  getGuestToken issuing expired_state
  = (Normal (Rejected (Error (VStr "No Server Implementation"))), expired_state).
Proof. reflexivity. Qed.

(** * Theorems *)

(** ** The validity check *)

(** C9.  For a stored token record (a JSON object whose [expires_at] member,
    if it has one, is a number) and a clock at or after the epoch, the
    validity check answers valid exactly when the expiry timestamp is
    present and strictly greater than the time: this is the answer of
    [isAccessTokenValid] for the access-token slot, and the test by which
    [getGuestToken] resolves with the stored guest token rather than asking
    the server for one.  An expiry at or before the time is invalid. *)
Theorem validity_is_strict_expiry_comparison
    (env : platform) (w : world) (m : gmap string json) (e : option Z) :
  0 <= clock w ->
  m !! "expires_at" = JNum <$> e ->
  let valid := match e with Some t => clock w <? t | None => false end in
  (localStorage w !! ACCESS_TOKEN_KEY = Some (Json (JObj m)) ->
   (isAccessTokenValid env w).1 = Normal valid) /\
  (localStorage w !! GUEST_TOKEN_KEY = Some (Json (JObj m)) ->
   getGuestToken env w =
     if valid
     then (Normal (Fulfilled (prop (of_json (JObj m)) "access_token")), w)
     else getGuestTokenFromServer env w).
Proof.
  intros Hnow He valid.
  assert (usable env (of_json (JObj m)) (clock w) = Normal valid) as Hu.
  { subst valid. destruct e as [t|]; cbn [fmap option_fmap option_map] in He.
    - rewrite (usable_record _ _ t) by done. f_equal.
      destruct (Z.ltb_spec (clock w) t), (Z.eqb_spec t 0); cbn; try done. lia.
    - apply guard_no_expiry. by rewrite prop_record, He. }
  split; intros Hs.
  - rewrite isAccessTokenValid_run, Hs. cbn [JSON_parse]. rewrite Hu.
    pose proof (lapsed_usable env (of_json (JObj m)) (clock w)) as Hboth.
    rewrite Hu in Hboth. by destruct (lapsed env _ _).
  - rewrite getGuestToken_run, Hs. cbn [JSON_parse].
    change (truthy (of_json (JObj m))) with true. cbv iota. rewrite Hu.
    by destruct valid.
Qed.

Lemma validity_is_strict_expiry_comparison_witness :
  (isAccessTokenValid silent current_state).1 = Normal true
  /\ (isAccessTokenValid silent expired_state).1 = Normal false
  /\ getGuestToken silent guest_state = (Normal (Fulfilled (VStr "guest")), guest_state)
  /\ getGuestToken silent stale_guest_state
     = getGuestTokenFromServer silent stale_guest_state.
Proof.
  split; [|split; [|split]].
  - apply (validity_is_strict_expiry_comparison silent current_state
             (token_record "user" 9000) (Some 9000)); [done|reflexivity|reflexivity].
  - apply (validity_is_strict_expiry_comparison silent expired_state
             (token_record "user" 5) (Some 5)); [done|reflexivity|reflexivity].
  - apply (validity_is_strict_expiry_comparison silent guest_state
             (token_record "guest" 9000) (Some 9000)); [done|reflexivity|reflexivity].
  - apply (validity_is_strict_expiry_comparison silent stale_guest_state
             (token_record "guest" 5) (Some 5)); [done|reflexivity|reflexivity].
Defined.

(** ** Reading the slots *)




(** C2 (amended).  For a stored access-token record whose expiry timestamp
    is a number other than zero and before the current time,
    [isAccessTokenValid] answers false and removes the record from the
    storage; [getAccessTokenObject] and [getAccessToken] do not look at the
    expiry: they return the record, or its token, whenever the record has a
    token, and leave the storage as it is. *)
Theorem expired_record_is_removed_by_the_validity_check_only
    (env : platform) (w : world) (m : gmap string json) (e : Z) :
  localStorage w !! ACCESS_TOKEN_KEY = Some (Json (JObj m)) ->
  m !! "expires_at" = Some (JNum e) ->
  e <> 0 ->
  e < clock w ->
  let token := prop (of_json (JObj m)) "access_token" in
  isAccessTokenValid env w =
    (Normal false,
     World (vars w) (delete ACCESS_TOKEN_KEY (localStorage w)) (clock w) (sent w))
  /\ getAccessTokenObject w =
       (Normal (if truthy token then of_json (JObj m) else VNull), w)
  /\ getAccessToken w = (Normal (if truthy token then token else VNull), w).
Proof.
  intros Hs He Hz Hlt token.
  rewrite isAccessTokenValid_run, getAccessTokenObject_run, getAccessToken_run, Hs.
  cbn [JSON_parse].
  rewrite (usable_record _ _ e), (lapsed_record _ _ e) by done.
  change (truthy (of_json (JObj m))) with true. cbn [andb].
  destruct (Z.eqb_spec e 0) as [|_]; [done|].
  destruct (Z.ltb_spec e (clock w)); [|lia].
  destruct (Z.ltb_spec (clock w) e); [lia|]. done.
Qed.

Lemma expired_record_is_removed_by_the_validity_check_only_witness :
  isAccessTokenValid silent expired_state = (Normal false, state bare_config None None 10)
  /\ getAccessTokenObject expired_state =
       (Normal (of_json (JObj (token_record "user" 5))), expired_state)
  /\ getAccessToken expired_state = (Normal (VStr "user"), expired_state).
Proof.
  destruct (expired_record_is_removed_by_the_validity_check_only silent expired_state
              (token_record "user" 5) 5 eq_refl eq_refl ltac:(done) ltac:(done))
    as (H1 & H2 & H3).
  split; [|split].
  - rewrite H1. vm_compute. reflexivity.
  - rewrite H2. vm_compute. reflexivity.
  - rewrite H3. vm_compute. reflexivity.
Defined.

(** C2, as stated, fails for [getAccessTokenObject] and [getAccessToken]:
    they return an expired record, and its token, and remove nothing. *)
Lemma expired_record_is_still_read :
  localStorage expired_state !! ACCESS_TOKEN_KEY
    = Some (Json (JObj (token_record "user" 5)))
  /\ clock expired_state = 10
  /\ getAccessTokenObject expired_state =
       (Normal (of_json (JObj (token_record "user" 5))), expired_state)
  /\ getAccessToken expired_state = (Normal (VStr "user"), expired_state).
Proof. repeat split. Qed.

(** C3 (amended).  When the guest-token slot is absent (or holds a falsy
    document) and the access-token slot holds a record that has not expired,
    [getGuestToken] resolves to the access token of that record, with no
    call to the server and no change of state.  A record in the guest-token
    slot is never replaced by the one in the access-token slot: when it has
    expired, [getGuestToken] goes to the server for a new guest token. *)
Theorem guest_token_falls_back_when_guest_slot_is_empty
    (env : platform) (w : world) (guest : value) (m : gmap string json) (e : Z) :
  0 <= clock w ->
  m !! "expires_at" = Some (JNum e) ->
  (JSON_parse (localStorage w !! GUEST_TOKEN_KEY) = Normal guest ->
   truthy guest = false ->
   localStorage w !! ACCESS_TOKEN_KEY = Some (Json (JObj m)) ->
   clock w < e ->
   getGuestToken env w =
     (Normal (Fulfilled (prop (of_json (JObj m)) "access_token")), w))
  /\ (localStorage w !! GUEST_TOKEN_KEY = Some (Json (JObj m)) ->
      e <= clock w ->
      getGuestToken env w = getGuestTokenFromServer env w).
Proof.
  intros Hnow He. split.
  - intros Hg Hf Hs Hlt. rewrite getGuestToken_run, Hg, Hf, Hs. cbn [JSON_parse].
    rewrite (usable_record _ _ e) by done.
    destruct (Z.eqb_spec e 0); [lia|]. by destruct (Z.ltb_spec (clock w) e); [|lia].
  - intros Hs Hle. rewrite getGuestToken_run, Hs. cbn [JSON_parse].
    change (truthy (of_json (JObj m))) with true. cbv iota.
    rewrite (usable_record _ _ e) by done.
    destruct (Z.ltb_spec (clock w) e); [lia|]. by rewrite andb_false_r.
Qed.

Lemma guest_token_falls_back_when_guest_slot_is_empty_witness :
  getGuestToken silent current_state = (Normal (Fulfilled (VStr "user")), current_state)
  /\ getGuestToken issuing stale_guest_state
     = getGuestTokenFromServer issuing stale_guest_state.
Proof.
  split.
  - destruct (guest_token_falls_back_when_guest_slot_is_empty silent current_state VNull
                (token_record "user" 9000) 9000 ltac:(done) eq_refl) as [H _].
    rewrite (H eq_refl eq_refl eq_refl ltac:(done)). vm_compute. reflexivity.
  - destruct (guest_token_falls_back_when_guest_slot_is_empty issuing stale_guest_state
                VUndefined (token_record "guest" 5) 5 ltac:(done) eq_refl) as [_ H].
    exact (H eq_refl ltac:(done)).
Defined.

(** C3, as stated, fails for an expired guest record: beside a current
    access-token record, [getGuestToken] does not resolve to the access
    token; it calls the guest-token server and resolves to what it sends. *)
Lemma expired_guest_record_goes_to_the_server :
  localStorage stale_guest_state !! GUEST_TOKEN_KEY
    = Some (Json (JObj (token_record "guest" 5)))
  /\ localStorage stale_guest_state !! ACCESS_TOKEN_KEY
    = Some (Json (JObj (token_record "user" 9000)))
  /\ clock stale_guest_state = 10
  /\ (getGuestToken issuing stale_guest_state).1 = Normal (Fulfilled (VStr "fresh"))
  /\ sent (getGuestToken issuing stale_guest_state).2
    = [Request (VStr "https://auth.example/guest") VUndefined false].
Proof. repeat split. Qed.

(** ** Logout *)

(** C10.  [logout] removes the access-token slot and nothing else: every
    other key of the storage, the guest-token slot among them, keeps its
    value, and a guest token that was valid is still what [getGuestToken]
    resolves to after the logout, without a call to the server. *)
Theorem logout_leaves_the_guest_token (env : platform) (w : world) :
  logout w =
    (Normal tt,
     World (vars w) (delete ACCESS_TOKEN_KEY (localStorage w)) (clock w) (sent w))
  /\ localStorage (logout w).2 !! ACCESS_TOKEN_KEY = None
  /\ (forall key, key <> ACCESS_TOKEN_KEY ->
      localStorage (logout w).2 !! key = localStorage w !! key)
  /\ localStorage (logout w).2 !! GUEST_TOKEN_KEY = localStorage w !! GUEST_TOKEN_KEY
  /\ (forall (m : gmap string json) (e : Z),
      localStorage w !! GUEST_TOKEN_KEY = Some (Json (JObj m)) ->
      m !! "expires_at" = Some (JNum e) ->
      0 <= clock w ->
      clock w < e ->
      getGuestToken env (logout w).2 =
        (Normal (Fulfilled (prop (of_json (JObj m)) "access_token")), (logout w).2)).
Proof.
  assert (forall key, key <> ACCESS_TOKEN_KEY ->
    localStorage (logout w).2 !! key = localStorage w !! key) as Hframe.
  { intros key Hkey. cbn. by rewrite lookup_delete_ne. }
  split; [done|]. split; [cbn; apply lookup_delete_eq|].
  split; [done|]. split; [by apply Hframe|].
  intros m e Hs He Hnow Hlt.
  pose proof (validity_spec := usable_record env m e (clock w) He).
  rewrite getGuestToken_run, Hframe, Hs by done. cbn [JSON_parse].
  change (truthy (of_json (JObj m))) with true. cbv iota.
  change (clock (logout w).2) with (clock w). rewrite validity_spec.
  destruct (Z.eqb_spec e 0); [lia|]. by destruct (Z.ltb_spec (clock w) e); [|lia].
Qed.

Lemma logout_leaves_the_guest_token_witness :
  getGuestToken silent (logout guest_state).2 =
    (Normal (Fulfilled (VStr "guest")), (logout guest_state).2)
  /\ getAccessToken (logout guest_state).2 = (Normal VNull, (logout guest_state).2).
Proof.
  split; [|reflexivity].
  destruct (logout_leaves_the_guest_token silent guest_state) as (_ & _ & _ & _ & H).
  rewrite (H (token_record "guest" 9000) 9000 eq_refl eq_refl ltac:(done) ltac:(done)).
  vm_compute. reflexivity.
Defined.

(** ** Servers that were not configured *)

Lemma option_run (options : value) (name : string) (w : world) :
  and_ options (lift (get options name)) w = (Normal (option_of options name), w).
Proof.
  unfold and_, option_of. destruct (truthy options) eqn:Ht; [|done].
  unfold lift. by rewrite truthy_get.
Qed.

Lemma option_or_null_run (options : value) (name : string) (w : world) :
  (let! o := and_ options (lift (get options name)) in
   if truthy o then lift (get options name) else ret VNull) w
  = (Normal (option_or_null options name), w).
Proof.
  rewrite (bind_val _ _ _ _ _ (option_run options name w)).
  unfold option_or_null, option_of.
  destruct (truthy options) eqn:Ht.
  - destruct (truthy (prop options name)); [|done].
    unfold lift. by rewrite truthy_get.
  - by rewrite Ht.
Qed.

Lemma initialize_run env (appKey options : value) (w : world) :
  initialize env appKey options w =
    (Normal tt,
     World
       (Config appKey
          (if truthy (option_of options "apiRoot") then prop options "apiRoot"
           else if truthy (option_of options "isProduction")
                then API_HOST_PROD env else API_HOST_SANDBOX env)
          (option_or_null options "guestTokenUrl")
          (option_or_null options "accessTokenUrl")
          (option_or_null options "refreshTokenUrl")
          (option_or_null options "redirectUri"))
       (localStorage w) (clock w) (sent w)).
Proof.
  unfold initialize.
  rewrite (bind_val _ _ _ _ _ (option_run options "apiRoot" w)).
  assert ((if truthy (option_of options "apiRoot")
           then lift (get options "apiRoot")
           else let! isProduction := and_ options (lift (get options "isProduction")) in
                ret (if truthy isProduction
                     then API_HOST_PROD env else API_HOST_SANDBOX env)) w
          = (Normal (if truthy (option_of options "apiRoot") then prop options "apiRoot"
                     else if truthy (option_of options "isProduction")
                          then API_HOST_PROD env else API_HOST_SANDBOX env), w)) as Hurl.
  { destruct (truthy (option_of options "apiRoot")) eqn:Hroot.
    - assert (truthy options = true) as Ht.
      { unfold option_of in Hroot. destruct (truthy options) eqn:E; [done|].
        by rewrite E in Hroot. }
      unfold lift. by rewrite truthy_get.
    - by rewrite (bind_val _ _ _ _ _ (option_run options "isProduction" w)). }
  rewrite (bind_val _ _ _ _ _ Hurl).
  rewrite (bind_val _ _ _ _ _ (option_or_null_run options "redirectUri" w)).
  rewrite (bind_val _ _ _ _ _ (option_or_null_run options "guestTokenUrl" w)).
  rewrite (bind_val _ _ _ _ _ (option_or_null_run options "accessTokenUrl" w)).
  rewrite (bind_val _ _ _ _ _ (option_or_null_run options "refreshTokenUrl" w)).
  done.
Qed.

Lemma option_or_null_missing (options : value) (name : string) :
  truthy (option_of options name) = false ->
  truthy (option_or_null options name) = false.
Proof. unfold option_or_null. by intros ->. Qed.

Lemma getGuestTokenFromServer_unconfigured env (w : world) :
  truthy (_guestTokenUrl (vars w)) = false ->
  getGuestTokenFromServer env w =
    (Normal (Rejected (Error (VStr "No Server Implementation"))), w).
Proof.
  intros H. unfold getGuestTokenFromServer.
  rewrite (bind_val _ _ w (_guestTokenUrl (vars w)) w) by done. by rewrite H.
Qed.

Lemma refreshAccessToken_unconfigured env (w : world) :
  truthy (_refreshTokenUrl (vars w)) = false ->
  refreshAccessToken env w =
    (Normal (Rejected (Error (VStr "No Server Implementation"))), w).
Proof.
  intros H. unfold refreshAccessToken.
  rewrite (bind_val _ _ w (_refreshTokenUrl (vars w)) w) by done. by rewrite H.
Qed.

Lemma completeServerLogin_unconfigured env (code : value) (w : world) :
  truthy (_accessTokenUrl (vars w)) = false ->
  completeServerLogin env code w =
    (Normal (Rejected (Error (VStr "No Server Implementation"))), w).
Proof.
  intros H. unfold completeServerLogin.
  rewrite (bind_val _ _ w (_redirectUri (vars w)) w) by done.
  destruct (truthy (_redirectUri (vars w)));
    (erewrite bind_val by reflexivity);
    rewrite (bind_val _ _ w (_accessTokenUrl (vars w)) w) by done; by rewrite H.
Qed.

(** C8.  After an initialization whose options named no guest-token server
    (no access-token server, no refresh server), guest-token issuance (the
    exchange of a code for an access token, the refresh of the access token)
    fails at once with the error 'No Server Implementation': the promise is
    rejected, no call is made to the transport and the state, storage
    included, is what it was. *)
Theorem unconfigured_server_fails_at_once
    (env : platform) (appKey options code : value) (w0 w : world) :
  vars w = vars (initialize env appKey options w0).2 ->
  (truthy (option_of options "guestTokenUrl") = false ->
   getGuestTokenFromServer env w =
     (Normal (Rejected (Error (VStr "No Server Implementation"))), w))
  /\ (truthy (option_of options "accessTokenUrl") = false ->
      completeServerLogin env code w =
        (Normal (Rejected (Error (VStr "No Server Implementation"))), w))
  /\ (truthy (option_of options "refreshTokenUrl") = false ->
      refreshAccessToken env w =
        (Normal (Rejected (Error (VStr "No Server Implementation"))), w)).
Proof.
  rewrite initialize_run. cbn [snd vars]. intros Hvars.
  split; [|split]; intros H.
  - apply getGuestTokenFromServer_unconfigured.
    rewrite Hvars. by apply option_or_null_missing.
  - apply completeServerLogin_unconfigured.
    rewrite Hvars. by apply option_or_null_missing.
  - apply refreshAccessToken_unconfigured.
    rewrite Hvars. by apply option_or_null_missing.
Qed.

Lemma unconfigured_server_fails_at_once_witness :
  getGuestTokenFromServer issuing expired_state =
    (Normal (Rejected (Error (VStr "No Server Implementation"))), expired_state)
  /\ completeServerLogin issuing (VStr "abc123") expired_state =
    (Normal (Rejected (Error (VStr "No Server Implementation"))), expired_state)
  /\ refreshAccessToken issuing expired_state =
    (Normal (Rejected (Error (VStr "No Server Implementation"))), expired_state).
Proof.
  destruct (unconfigured_server_fails_at_once issuing (VStr "app") VUndefined
              (VStr "abc123") (state initial_config None None 0) expired_state eq_refl)
    as (H1 & H2 & H3).
  exact (conj (H1 eq_refl) (conj (H2 eq_refl) (H3 eq_refl))).
Defined.

(** ** Refreshing the access token *)

Lemma clone_members (X : gmap string json) : omap to_json (of_json <$> X) = X.
Proof.
  apply map_eq. intros k. rewrite lookup_omap, lookup_fmap.
  destruct (X !! k) as [j|]; [|done]. cbn. apply to_json_of_json.
Qed.

(** C5.  When the refresh server answers with a response that carries an
    error indicator (a truthy [Error] property), [refreshAccessToken]
    writes nothing to the storage and its promise is fulfilled, not
    rejected, with that very response. *)
Theorem refresh_error_is_returned_as_data
    (env : platform) (w : world) (data err : value) :
  truthy (_refreshTokenUrl (vars w)) = true ->
  settled (respond env (Request (_refreshTokenUrl (vars w)) VUndefined true))
    = Fulfilled data ->
  get data "Error" = Normal err ->
  truthy err = true ->
  refreshAccessToken env w =
    (Normal (Fulfilled data),
     World (vars w) (localStorage w)
       (clock w + elapsed (respond env (Request (_refreshTokenUrl (vars w)) VUndefined true)))
       (sent w ++ [Request (_refreshTokenUrl (vars w)) VUndefined true])).
Proof.
  intros Hurl Hreply Herr Htruthy. unfold refreshAccessToken.
  rewrite (bind_val _ _ w (_refreshTokenUrl (vars w)) w) by done. rewrite Hurl.
  erewrite bind_val by reflexivity. rewrite Hreply. unfold then_.
  erewrite bind_val by (unfold lift; by rewrite Herr).
  rewrite Htruthy. cbn [negb]. by erewrite bind_val by reflexivity.
Qed.

Lemma refresh_error_is_returned_as_data_witness :
  (refreshAccessToken refusing stale_guest_state).1
    = Normal (Fulfilled (VObj {[ "Error" := VStr "invalid grant" ]}))
  /\ localStorage (refreshAccessToken refusing stale_guest_state).2
    = localStorage stale_guest_state.
Proof.
  rewrite (refresh_error_is_returned_as_data refusing stale_guest_state
             (VObj {[ "Error" := VStr "invalid grant" ]}) (VStr "invalid grant")
             eq_refl eq_refl eq_refl eq_refl).
  split; reflexivity.
Defined.

(** Runs a computation whose actions are all known; an action that may
    throw is followed both ways. *)
Ltac steps :=
  repeat first
    [ step
    | erewrite bind_throw by reflexivity
    | match goal with H : truthy _ = _ |- _ => rewrite H end
    | progress cbn [negb truthy default from_option id]
    | match goal with
      | |- context [lift ?c] =>
          lazymatch c with
          | Normal _ => fail
          | Throw _ => fail
          | _ => destruct c eqn:?
          end
      end ].

(** C6.  When the refresh server answers with an object that carries no error
    indicator and whose lifetime can be converted (the [parseInt] of its
    [expires_in] does not throw), [refreshAccessToken] stores under the
    access-token key the members of the response, with [expires_at] set and
    without [refresh_token], and fulfils its promise with the response
    object itself, to which it has added [expires_at]: a [refresh_token] of
    the response is in the value returned and not in the record stored. *)
Theorem refresh_stores_a_stripped_copy
    (env : platform) (w : world) (m : gmap string value) (expires_at : value) :
  truthy (_refreshTokenUrl (vars w)) = true ->
  settled (respond env (Request (_refreshTokenUrl (vars w)) VUndefined true))
    = Fulfilled (VObj m) ->
  truthy (prop (VObj m) "Error") = false ->
  let call := Request (_refreshTokenUrl (vars w)) VUndefined true in
  let now := clock w + elapsed (respond env call) in
  expiry (Int now) (prop (VObj m) "expires_in") = Normal expires_at ->
  let m' := <["expires_at" := expires_at]> m in
  let stored := delete "refresh_token" (omap to_json m') in
  refreshAccessToken env w =
    (Normal (Fulfilled (VObj m')),
     World (vars w) (<[ACCESS_TOKEN_KEY := Json (JObj stored)]> (localStorage w))
       now (sent w ++ [call]))
  /\ stored !! "refresh_token" = None
  /\ prop (VObj m') "refresh_token" = prop (VObj m) "refresh_token"
  /\ (forall p, p <> "refresh_token" -> stored !! p = m' !! p ≫= to_json).
Proof.
  intros Hurl Hreply Herr call now Hexpiry m' stored. split; [|split; [|split]].
  - unfold refreshAccessToken.
    rewrite (bind_val _ _ w (_refreshTokenUrl (vars w)) w) by done. rewrite Hurl.
    erewrite bind_val by reflexivity. rewrite Hreply. unfold then_.
    erewrite bind_val by reflexivity.
    change (default VUndefined (m !! "Error")) with (prop (VObj m) "Error").
    rewrite Herr. cbn [negb]. do 2 step.
    change (default VUndefined (m !! "expires_in")) with (prop (VObj m) "expires_in").
    cbn [clock]. fold call. fold now. rewrite Hexpiry. do 6 step.
    cbn [JSON_stringify to_json]. rewrite omap_delete, clone_members. done.
  - apply lookup_delete_eq.
  - unfold prop, m'. cbn [get]. by rewrite lookup_insert_ne.
  - intros p Hp. unfold stored. by rewrite lookup_delete_ne, lookup_omap.
Qed.

Lemma refresh_stores_a_stripped_copy_witness :
  match (refreshAccessToken issuing stale_guest_state).1 with
  | Normal (Fulfilled data) => prop data "refresh_token" = VStr "secret"
  | _ => False
  end
  /\ localStorage (refreshAccessToken issuing stale_guest_state).2 !! ACCESS_TOKEN_KEY
     = Some (Json (JObj {[ "access_token" := JStr "fresh";
                           "expires_in" := JNum 3600;
                           "expires_at" := JNum 3600260 ]})).
Proof.
  destruct (refresh_stores_a_stripped_copy issuing stale_guest_state
    {[ "access_token" := VStr "fresh"; "expires_in" := VNum (Int 3600);
       "refresh_token" := VStr "secret" ]} (VNum (Int 3600260))
    eq_refl eq_refl eq_refl eq_refl) as [H _].
  rewrite H. split; vm_compute; reflexivity.
Defined.

(** ** No refresh token in the storage *)

Lemma kept (w w' : world) :
  localStorage w' = localStorage w -> kept_or_clean w w'.
Proof. intros H. left. by rewrite H. Qed.

Lemma clean_object (w w' : world) (m : gmap string value) :
  localStorage w' =
    <[ACCESS_TOKEN_KEY := JSON_stringify (VObj (delete "refresh_token" m))]> (localStorage w) ->
  kept_or_clean w w'.
Proof.
  intros H. right. eexists. rewrite H, lookup_insert_eq. split; [reflexivity|].
  cbn [member]. by rewrite lookup_omap, lookup_delete_eq.
Qed.

Lemma clean_array (w w' : world) (l : list value) (m : gmap string value) :
  localStorage w' = <[ACCESS_TOKEN_KEY := JSON_stringify (VArr l m)]> (localStorage w) ->
  kept_or_clean w w'.
Proof. intros H. right. eexists. rewrite H, lookup_insert_eq. by split. Qed.

Lemma refreshAccessToken_clean env (w : world) :
  kept_or_clean w (refreshAccessToken env w).2.
Proof.
  unfold refreshAccessToken.
  rewrite (bind_val _ _ w (_refreshTokenUrl (vars w)) w) by done.
  destruct (truthy (_refreshTokenUrl (vars w))); [|by apply kept].
  step. destruct (settled _) as [data|e|]; [|by apply kept..].
  unfold then_. destruct data as [| |b|n|s|l m|m].
  - steps. by apply kept.
  - steps. by apply kept.
  - steps. by apply kept.
  - steps. by apply kept.
  - steps. by apply kept.
  - step. destruct (truthy (default VUndefined (m !! "Error"))).
    + steps. by apply kept.
    + steps; [by eapply clean_array|by apply kept].
  - step. destruct (truthy (default VUndefined (m !! "Error"))).
    + steps. by apply kept.
    + steps; [by eapply clean_object|by apply kept].
Qed.

Lemma completeImplicitLogin_run (accessToken expiresIn : value) (w : world) :
  completeImplicitLogin accessToken expiresIn w =
    match expiry (Int (clock w)) expiresIn with
    | Normal expires_at =>
        (Normal accessToken,
         World (vars w)
           (<[ACCESS_TOKEN_KEY :=
                JSON_stringify
                  (VObj (<["expires_at" := expires_at]>
                           (<["access_token" := accessToken]> ∅)))]> (localStorage w))
           (clock w) (sent w))
    | Throw e => (Throw e, w)
    end.
Proof.
  unfold completeImplicitLogin. do 2 step.
  destruct (expiry (Int (clock w)) expiresIn) as [expires_at|e].
  - do 3 step. unfold lift. cbn [get].
    by rewrite lookup_insert_ne, lookup_insert_eq.
  - by erewrite bind_throw by reflexivity.
Qed.

Lemma completeImplicitLogin_clean (accessToken expiresIn : value) (w : world) :
  match parseInt expiresIn with
  | Normal _ =>
      exists m,
        localStorage (completeImplicitLogin accessToken expiresIn w).2 !! ACCESS_TOKEN_KEY
          = Some (Json (JObj m))
        /\ m !! "refresh_token" = None
  | Throw _ =>
      localStorage (completeImplicitLogin accessToken expiresIn w).2 = localStorage w
  end.
Proof.
  rewrite completeImplicitLogin_run. unfold expiry.
  destruct (parseInt expiresIn) as [seconds|e]; [|done]. cbn [and_then].
  cbv beta iota delta [snd localStorage JSON_stringify]. cbn [to_json].
  eexists. rewrite lookup_insert_eq. split; [reflexivity|].
  by rewrite lookup_omap, !lookup_insert_ne, lookup_empty.
Qed.

Lemma completeImplicitLogin_kept (accessToken expiresIn : value) (w : world) :
  kept_or_clean w (completeImplicitLogin accessToken expiresIn w).2.
Proof.
  pose proof (completeImplicitLogin_clean accessToken expiresIn w) as H.
  destruct (parseInt expiresIn).
  - destruct H as (m & Hm & Hrt). right. by exists (JObj m).
  - by apply kept.
Qed.

Lemma completeServerLogin_clean env (code : value) (w : world) :
  kept_or_clean w (completeServerLogin env code w).2.
Proof.
  unfold completeServerLogin.
  rewrite (bind_val _ _ w (_redirectUri (vars w)) w) by done.
  destruct (truthy (_redirectUri (vars w))).
  all: step; rewrite (bind_val _ _ w (_accessTokenUrl (vars w)) w) by done.
  all: destruct (truthy (_accessTokenUrl (vars w))); [|by apply kept].
  all: step; destruct (settled _) as [data|e|]; [|by apply kept..].
  all: unfold then_, and_; destruct (truthy data) eqn:Ht.
  all: destruct data as [| |b|n|s|l m|m]; try discriminate Ht.
  all: try (steps; by apply kept).
  all: step.
  all: destruct (truthy (default VUndefined (m !! "expires_in"))) eqn:He;
    [step; destruct (truthy (default VUndefined (m !! "access_token"))) eqn:Ha|].
  all: steps.
  all: try (apply kept; reflexivity).
  all: lazymatch goal with
       | |- context [JSON_stringify (VArr _ _)] => eapply clean_array; reflexivity
       | |- context [JSON_stringify (VObj _)] => eapply clean_object; reflexivity
       end.
Qed.

Lemma completeLogin_implicit env (isServer : value) (w : world) :
  truthy isServer = false ->
  truthy (option_of (extractRedirectionTokenData env) "access_token") = true ->
  completeLogin env isServer w =
    match completeImplicitLogin
            (prop (extractRedirectionTokenData env) "access_token")
            (prop (extractRedirectionTokenData env) "expires_in") w with
    | (Normal token, w') => (Normal (Fulfilled token), w')
    | (Throw e, w') => (Throw e, w')
    end.
Proof.
  intros Hserver Hp. unfold completeLogin. rewrite Hserver.
  rewrite (bind_val _ _ _ _ _ (option_run (extractRedirectionTokenData env) "access_token" w)).
  rewrite Hp.
  assert (truthy (extractRedirectionTokenData env) = true) as Ht.
  { unfold option_of in Hp.
    destruct (truthy (extractRedirectionTokenData env)) eqn:E; [done|].
    by rewrite E in Hp. }
  rewrite (bind_val _ _ w (prop (extractRedirectionTokenData env) "access_token") w)
    by (unfold lift; by rewrite truthy_get).
  rewrite (bind_val _ _ w (prop (extractRedirectionTokenData env) "expires_in") w)
    by (unfold lift; by rewrite truthy_get).
  unfold bind. by destruct (completeImplicitLogin _ _ w) as [[token|e] w'].
Qed.

Lemma completeLogin_clean env (isServer : value) (w : world) :
  kept_or_clean w (completeLogin env isServer w).2.
Proof.
  destruct (truthy isServer) eqn:Hserver.
  - unfold completeLogin. rewrite Hserver.
    destruct (truthy (extractRedirectionCode env)); [|by apply kept].
    destruct (extractRedirectionCode env); try by apply kept.
    apply completeServerLogin_clean.
  - destruct (truthy (option_of (extractRedirectionTokenData env) "access_token")) eqn:Hp.
    + rewrite completeLogin_implicit by done.
      pose proof (completeImplicitLogin_kept
                    (prop (extractRedirectionTokenData env) "access_token")
                    (prop (extractRedirectionTokenData env) "expires_in") w) as H.
      by destruct (completeImplicitLogin _ _ w) as [[token|e] w'].
    + unfold completeLogin. rewrite Hserver.
      rewrite (bind_val _ _ _ _ _
                 (option_run (extractRedirectionTokenData env) "access_token" w)).
      rewrite Hp. by apply kept.
Qed.

(** C7.  Whatever the input and whatever the server answers, the three
    writers of the access-token slot (the completion of an implicit login,
    the completion of a login through the server, the refresh) and
    [completeLogin], which calls the first two, leave under the
    access-token key either what was there or a document without a
    [refresh_token] member.  The completion of an implicit login writes
    such a document whenever the lifetime it is given can be converted (its
    [parseInt] does not throw), and leaves the storage as it is when it
    cannot. *)
Theorem no_writer_stores_a_refresh_token (env : platform) (w : world) :
  (forall accessToken expiresIn : value,
    kept_or_clean w (completeImplicitLogin accessToken expiresIn w).2
    /\ match parseInt expiresIn with
       | Normal _ =>
           exists m : gmap string json,
             localStorage (completeImplicitLogin accessToken expiresIn w).2
               !! ACCESS_TOKEN_KEY = Some (Json (JObj m))
             /\ m !! "refresh_token" = None
       | Throw _ =>
           localStorage (completeImplicitLogin accessToken expiresIn w).2 = localStorage w
       end)
  /\ (forall code : value, kept_or_clean w (completeServerLogin env code w).2)
  /\ kept_or_clean w (refreshAccessToken env w).2
  /\ (forall isServer : value, kept_or_clean w (completeLogin env isServer w).2).
Proof.
  split; [|split; [|split]].
  - intros. split; [apply completeImplicitLogin_kept|apply completeImplicitLogin_clean].
  - intros. apply completeServerLogin_clean.
  - apply refreshAccessToken_clean.
  - intros. apply completeLogin_clean.
Qed.

(** ** The authorization header *)

Lemma then_normal {A B} (p : promise A) (cb : A -> M (promise B)) (w : world) :
  exists q w', then_ p cb w = (Normal q, w').
Proof.
  destruct p as [a|e|]; cbn [then_]; [|by eexists _, _..].
  destruct (cb a w) as [[q|e] w']; by eexists _, _.
Qed.

Lemma getGuestTokenFromServer_normal env (w : world) :
  exists p w', getGuestTokenFromServer env w = (Normal p, w').
Proof.
  unfold getGuestTokenFromServer.
  rewrite (bind_val _ _ w (_guestTokenUrl (vars w)) w) by done.
  destruct (truthy _); [|by eexists _, _].
  step. apply then_normal.
Qed.

Lemma refreshAccessToken_normal env (w : world) :
  exists p w', refreshAccessToken env w = (Normal p, w').
Proof.
  unfold refreshAccessToken.
  rewrite (bind_val _ _ w (_refreshTokenUrl (vars w)) w) by done.
  destruct (truthy _); [|by eexists _, _].
  step. apply then_normal.
Qed.

Lemma add_bearer env (token : value) : add env (VStr "Bearer ") token = bearer token.
Proof.
  unfold add, bearer, ToPrimitive, ToString.
  destruct token as [| |[]|n|s|l m|m]; try done.
  all: by destruct (string_of _).
Qed.

Lemma bearer_convertible (token : value) :
  convertible token = true -> exists h, bearer token = Normal h.
Proof.
  unfold convertible, bearer, ToString. destruct (string_of token); [by eexists|done].
Qed.

Lemma bearer_unconvertible (token : value) :
  convertible token = false -> bearer token = Throw TypeError.
Proof. unfold convertible, bearer, ToString. by destruct (string_of token). Qed.

Lemma formatAuthHeader_run env (token : value) (w : world) :
  formatAuthHeader env token w =
    (if truthy token then bearer (prop token "access_token") else Normal VNull, w).
Proof.
  unfold formatAuthHeader. destruct (truthy token) eqn:Ht; [|done].
  rewrite (bind_val _ _ w (prop token "access_token") w)
    by (unfold lift; by rewrite truthy_get).
  by rewrite add_bearer.
Qed.

(** The header callbacks of the requests that were built. *)
Lemma header_of_user env (endpoint options : value) (w0 : world) :
  built (authorizedApiRequest env endpoint options w0) ->
  header_of (authorizedApiRequest env endpoint options w0) =
    new_Promise (
      let! item := getItem ACCESS_TOKEN_KEY in
      let! token := lift (JSON_parse item) in
      if truthy token then
        let! now := Date_now in
        let! refreshTokenUrl := the _refreshTokenUrl in
        let! expired :=
          and_ refreshTokenUrl (
            let! expires_at := lift (get token "expires_at") in
            and_ expires_at (
              let! expires_at := lift (get token "expires_at") in
              let! after := lift (gt env (VNum now) expires_at) in
              ret (VBool after))) in
        if truthy expired then
          let! p := refreshAccessToken env in
          then_resolve p (fun refreshedToken => formatAuthHeader env refreshedToken)
        else
          let! header := formatAuthHeader env token in
          resolve header
      else
        resolve VNull).
Proof.
  intros [r Hr]. unfold header_of. rewrite Hr.
  unfold authorizedApiRequest in Hr.
  rewrite (bind_val _ _ w0 (_apiUrl (vars w0)) w0) in Hr by done.
  destruct (add env (_apiUrl (vars w0)) endpoint) as [url|e] eqn:Hurl.
  - rewrite (bind_val _ _ w0 url w0) in Hr by done.
    cbn [ret fst] in Hr. by injection Hr as <-.
  - by rewrite (bind_throw _ _ w0 e w0) in Hr by done.
Qed.

Lemma header_of_guest env (endpoint options : value) (w0 : world) :
  built (authorizedAsGuestApiRequest env endpoint options w0) ->
  header_of (authorizedAsGuestApiRequest env endpoint options w0) =
    new_Promise (
      let! p := getGuestToken env in
      then_resolve p (fun token =>
        if truthy token then lift (add env (VStr "Bearer ") token) else ret VNull)).
Proof.
  intros [r Hr]. unfold header_of. rewrite Hr.
  unfold authorizedAsGuestApiRequest in Hr.
  rewrite (bind_val _ _ w0 (_apiUrl (vars w0)) w0) in Hr by done.
  destruct (add env (_apiUrl (vars w0)) endpoint) as [url|e] eqn:Hurl.
  - rewrite (bind_val _ _ w0 url w0) in Hr by done.
    cbn [ret fst] in Hr. by injection Hr as <-.
  - by rewrite (bind_throw _ _ w0 e w0) in Hr by done.
Qed.

(** The test [_refreshTokenUrl && token.expires_at && now > token.expires_at]
    on a truthy token. *)
Lemma refresh_due_run env (token : value) (w : world) :
  truthy token = true ->
  match refresh_due env w token with
  | Normal b =>
      exists v,
        and_ (_refreshTokenUrl (vars w)) (
          let! expires_at := lift (get token "expires_at") in
          and_ expires_at (
            let! expires_at := lift (get token "expires_at") in
            let! after := lift (gt env (VNum (Int (clock w))) expires_at) in
            ret (VBool after))) w = (Normal v, w)
        /\ truthy v = b
  | Throw e =>
      and_ (_refreshTokenUrl (vars w)) (
        let! expires_at := lift (get token "expires_at") in
        and_ expires_at (
          let! expires_at := lift (get token "expires_at") in
          let! after := lift (gt env (VNum (Int (clock w))) expires_at) in
          ret (VBool after))) w = (Throw e, w)
  end.
Proof.
  intros Ht. unfold and_, refresh_due.
  destruct (truthy (_refreshTokenUrl (vars w))) eqn:Hurl; cbn [andb]; [|by eexists].
  rewrite (bind_val _ _ w (prop token "expires_at") w)
    by (unfold lift; by rewrite truthy_get).
  destruct (truthy (prop token "expires_at")) eqn:He; [|by eexists].
  rewrite (bind_val _ _ w (prop token "expires_at") w)
    by (unfold lift; by rewrite truthy_get).
  destruct (gt env _ _) as [b|e].
  - rewrite (bind_val _ _ w b w) by done. by eexists.
  - by rewrite (bind_throw _ _ w e w) by done.
Qed.

(** The header of [authorizedApiRequest] for a truthy stored token. *)
Lemma user_header_run env (endpoint options token : value) (w0 w : world) :
  built (authorizedApiRequest env endpoint options w0) ->
  JSON_parse (localStorage w !! ACCESS_TOKEN_KEY) = Normal token ->
  truthy token = true ->
  header_of (authorizedApiRequest env endpoint options w0) w =
    match refresh_due env w token with
    | Normal true =>
        match refreshAccessToken env w with
        | (Normal (Fulfilled refreshed), w') =>
            (Normal (resolved_later
                       (if truthy refreshed then bearer (prop refreshed "access_token")
                        else Normal VNull)), w')
        | (Normal _, w') => (Normal Pending, w')
        | (Throw e, w') => (Normal (Rejected e), w')
        end
    | Normal false => (Normal (settle (bearer (prop token "access_token"))), w)
    | Throw e => (Normal (Rejected e), w)
    end.
Proof.
  intros Hb Hp Ht. rewrite header_of_user by done. unfold new_Promise.
  rewrite (bind_val _ _ w (localStorage w !! ACCESS_TOKEN_KEY) w) by done.
  rewrite (bind_val _ _ w token w) by (unfold lift; by rewrite Hp).
  rewrite Ht.
  rewrite (bind_val _ _ w (Int (clock w)) w) by done.
  rewrite (bind_val _ _ w (_refreshTokenUrl (vars w)) w) by done.
  pose proof (refresh_due_run env token w Ht) as Hdue.
  destruct (refresh_due env w token) as [[]|e].
  - destruct Hdue as (v & Hv & Htv). rewrite (bind_val _ _ _ _ _ Hv), Htv.
    destruct (refreshAccessToken env w) as [[p|e] w'] eqn:Hr.
    + rewrite (bind_val _ _ _ _ _ Hr).
      destruct p as [refreshed|e|]; [|done..]. cbn [then_resolve].
      rewrite formatAuthHeader_run.
      by destruct (if truthy refreshed then _ else _).
    + by rewrite (bind_throw _ _ _ _ _ Hr).
  - destruct Hdue as (v & Hv & Htv). rewrite (bind_val _ _ _ _ _ Hv), Htv.
    unfold bind. rewrite formatAuthHeader_run, Ht.
    by destruct (bearer _).
  - by rewrite (bind_throw _ _ _ _ _ Hdue).
Qed.

(** The header of [authorizedAsGuestApiRequest]. *)
Lemma guest_header_run env (endpoint options : value) (w0 w : world) :
  built (authorizedAsGuestApiRequest env endpoint options w0) ->
  header_of (authorizedAsGuestApiRequest env endpoint options w0) w =
    match getGuestToken env w with
    | (Normal (Fulfilled token), w') =>
        (Normal (resolved_later (if truthy token then bearer token else Normal VNull)), w')
    | (Normal _, w') => (Normal Pending, w')
    | (Throw e, w') => (Normal (Rejected e), w')
    end.
Proof.
  intros Hb. rewrite header_of_guest by done. unfold new_Promise.
  destruct (getGuestToken env w) as [[p|e] w'] eqn:Hg.
  - rewrite (bind_val _ _ _ _ _ Hg).
    destruct p as [token|e|]; [|done..]. cbn [then_resolve].
    destruct (truthy token); [|done].
    unfold lift. rewrite add_bearer. by destruct (bearer token).
  - by rewrite (bind_throw _ _ _ _ _ Hg).
Qed.

Lemma does_not_reject_intro {A} (r : completion (promise A) * world) :
  (exists p w', r = (Normal p, w') /\ not_rejected p) -> does_not_reject r.
Proof. by intros (p & w' & -> & H). Qed.

Lemma resolved_later_not_rejected {A} (c : completion A) : not_rejected (resolved_later c).
Proof. by destruct c. Qed.

Lemma plain_slot_parse (x : option text) :
  plain_slot x = true ->
  exists token, JSON_parse x = Normal token
    /\ convertible (prop token "expires_at") = true
    /\ convertible (prop token "access_token") = true.
Proof.
  destruct x as [[|j]|]; cbn [plain_slot JSON_parse]; [done| |by eexists].
  intros [He Ha]%andb_prop. by exists (of_json j).
Qed.

Lemma usable_convertible env (token : value) (now : Z) :
  convertible (prop token "expires_at") = true ->
  exists b, usable env token now = Normal b.
Proof.
  intros Hc. unfold usable, guard.
  destruct (truthy token && truthy (prop token "expires_at")); [|by eexists].
  pose proof (lt_number env (prop token "expires_at") (Int now)) as H.
  destruct (lt env _ _), (gt env _ _); try done; [by eexists|].
  destruct H as (_ & _ & H). by rewrite H in Hc.
Qed.

Lemma refresh_due_convertible env (w : world) (token : value) :
  convertible (prop token "expires_at") = true ->
  exists b, refresh_due env w token = Normal b.
Proof.
  intros Hc. unfold refresh_due.
  destruct (truthy (_refreshTokenUrl (vars w)) && truthy (prop token "expires_at"));
    [|by eexists].
  pose proof (lt_number env (prop token "expires_at") (Int (clock w))) as H.
  unfold gt in *.
  destruct (lt env (prop token "expires_at") _), (lt env (VNum _) _); try done;
    [by eexists|].
  destruct H as (_ & _ & H). by rewrite H in Hc.
Qed.

(** What cannot be converted is an object or an array. *)
Lemma unconvertible_truthy (v : value) : convertible v = false -> truthy v = true.
Proof. unfold convertible. by destruct v as [| |[]|n|s|l m|m]. Qed.

Lemma refresh_due_unconvertible env (w : world) (token : value) :
  truthy (_refreshTokenUrl (vars w)) = true ->
  convertible (prop token "expires_at") = false ->
  refresh_due env w token = Throw TypeError.
Proof.
  intros Hurl Hc. unfold refresh_due.
  rewrite Hurl, (unconvertible_truthy _ Hc). cbn [andb].
  pose proof (lt_number env (prop token "expires_at") (Int (clock w))) as H.
  unfold gt in *.
  destruct (lt env (prop token "expires_at") _), (lt env (VNum _) _); try done.
  - congruence.
  - by destruct H as (-> & _).
Qed.

Lemma user_header_normal env (endpoint options : value) (w0 w : world) :
  built (authorizedApiRequest env endpoint options w0) ->
  plain_slot (localStorage w !! ACCESS_TOKEN_KEY) = true ->
  exists p w',
    header_of (authorizedApiRequest env endpoint options w0) w = (Normal p, w')
    /\ not_rejected p.
Proof.
  intros Hb Ha. destruct (plain_slot_parse _ Ha) as (token & Hp & He & Ht).
  destruct (truthy token) eqn:Htoken.
  - rewrite (user_header_run env endpoint options token) by done.
    destruct (refresh_due_convertible env w token He) as [[] ->].
    + destruct (refreshAccessToken_normal env w) as (p & w' & ->).
      destruct p as [refreshed|e|]; eexists _, _; (split; [reflexivity|]);
        [apply resolved_later_not_rejected|done..].
    + destruct (bearer_convertible _ Ht) as [h ->]. by eexists _, _.
  - rewrite header_of_user by done. unfold new_Promise.
    rewrite (bind_val _ _ w (localStorage w !! ACCESS_TOKEN_KEY) w) by done.
    rewrite (bind_val _ _ w token w) by (unfold lift; by rewrite Hp).
    rewrite Htoken. by eexists _, _.
Qed.

Lemma getGuestToken_normal env (w : world) :
  plain_slot (localStorage w !! GUEST_TOKEN_KEY) = true ->
  plain_slot (localStorage w !! ACCESS_TOKEN_KEY) = true ->
  exists p w', getGuestToken env w = (Normal p, w').
Proof.
  intros Hg Ha. rewrite getGuestToken_run.
  destruct (plain_slot_parse _ Hg) as (g & -> & Hge & _).
  destruct (plain_slot_parse _ Ha) as (a & -> & Hae & _).
  destruct (truthy g).
  - destruct (usable_convertible env g (clock w) Hge) as [[] ->]; [by eexists _, _|].
    apply getGuestTokenFromServer_normal.
  - destruct (usable_convertible env a (clock w) Hae) as [[] ->]; [by eexists _, _|].
    apply getGuestTokenFromServer_normal.
Qed.

Lemma guest_header_normal env (endpoint options : value) (w0 w : world) :
  built (authorizedAsGuestApiRequest env endpoint options w0) ->
  plain_slot (localStorage w !! GUEST_TOKEN_KEY) = true ->
  plain_slot (localStorage w !! ACCESS_TOKEN_KEY) = true ->
  exists p w',
    header_of (authorizedAsGuestApiRequest env endpoint options w0) w = (Normal p, w')
    /\ not_rejected p.
Proof.
  intros Hb Hg Ha. rewrite guest_header_run by done.
  destruct (getGuestToken_normal env w Hg Ha) as (p & w' & ->).
  destruct p as [token|e|]; eexists _, _; (split; [reflexivity|]);
    [apply resolved_later_not_rejected|done..].
Qed.

(** C4 (amended).  For a request that was built, in every configuration and
    every state whose two slots hold JSON or nothing, with an [expires_at]
    and an [access_token] that can be converted to a primitive (anything
    but an object or an array that has no string), the resolution of the
    authorization header of [authorizedApiRequest] or
    [authorizedAsGuestApiRequest] does not reject and does not throw: the
    promise of the header is fulfilled or stays pending.
    [authorizedApiRequest] resolves the header to [null] when the
    access-token slot is absent or holds a falsy document.  The promise of
    the header is rejected when the resolution throws before it has asked a
    server: with the [SyntaxError] of [JSON.parse] when a slot that it reads
    holds text that is not JSON (for the guest header the access-token slot
    is read when the guest-token slot holds nothing), and with a
    [TypeError] when the [expires_at] that is compared with the time, or the
    [access_token] that is appended to "Bearer ", cannot be converted. *)
Theorem header_resolution_rejects_only_unreadable_storage
    (env : platform) (endpoint options : value) (w0 w : world) :
  built (authorizedApiRequest env endpoint options w0) ->
  built (authorizedAsGuestApiRequest env endpoint options w0) ->
  (plain_slot (localStorage w !! ACCESS_TOKEN_KEY) = true ->
   does_not_reject (header_of (authorizedApiRequest env endpoint options w0) w)
   /\ (forall token,
        JSON_parse (localStorage w !! ACCESS_TOKEN_KEY) = Normal token ->
        truthy token = false ->
        header_of (authorizedApiRequest env endpoint options w0) w
          = (Normal (Fulfilled VNull), w))
   /\ (plain_slot (localStorage w !! GUEST_TOKEN_KEY) = true ->
       does_not_reject
         (header_of (authorizedAsGuestApiRequest env endpoint options w0) w)))
  /\ (localStorage w !! ACCESS_TOKEN_KEY = Some NotJSON ->
      header_of (authorizedApiRequest env endpoint options w0) w
        = (Normal (Rejected SyntaxError), w)
      /\ (forall guest,
           JSON_parse (localStorage w !! GUEST_TOKEN_KEY) = Normal guest ->
           truthy guest = false ->
           header_of (authorizedAsGuestApiRequest env endpoint options w0) w
             = (Normal (Rejected SyntaxError), w)))
  /\ (localStorage w !! GUEST_TOKEN_KEY = Some NotJSON ->
      header_of (authorizedAsGuestApiRequest env endpoint options w0) w
        = (Normal (Rejected SyntaxError), w))
  /\ (forall m : gmap string json,
      localStorage w !! ACCESS_TOKEN_KEY = Some (Json (JObj m)) ->
      (truthy (_refreshTokenUrl (vars w)) = true ->
       convertible (prop (of_json (JObj m)) "expires_at") = false ->
       header_of (authorizedApiRequest env endpoint options w0) w
         = (Normal (Rejected TypeError), w))
      /\ (truthy (_refreshTokenUrl (vars w)) = false ->
          convertible (prop (of_json (JObj m)) "access_token") = false ->
          header_of (authorizedApiRequest env endpoint options w0) w
            = (Normal (Rejected TypeError), w))).
Proof.
  intros Hu Hg. split; [|split; [|split]].
  - intros Ha. split; [by apply does_not_reject_intro, user_header_normal|]. split.
    + intros token Hp Ht. rewrite header_of_user by done. unfold new_Promise.
      rewrite (bind_val _ _ w (localStorage w !! ACCESS_TOKEN_KEY) w) by done.
      rewrite (bind_val _ _ w token w) by (unfold lift; by rewrite Hp).
      by rewrite Ht.
    + intros Hguest. by apply does_not_reject_intro, guest_header_normal.
  - intros Hs. split.
    + rewrite header_of_user by done. unfold new_Promise.
      rewrite (bind_val _ _ w (localStorage w !! ACCESS_TOKEN_KEY) w) by done.
      by rewrite (bind_throw _ _ w SyntaxError w) by (unfold lift; by rewrite Hs).
    + intros guest Hp Ht. rewrite guest_header_run by done.
      by rewrite getGuestToken_run, Hp, Ht, Hs.
  - intros Hs. rewrite guest_header_run by done.
    by rewrite getGuestToken_run, Hs.
  - intros m Hs. split; intros Hurl Hc.
    + rewrite (user_header_run env endpoint options (of_json (JObj m)))
        by (by rewrite ?Hs).
      by rewrite refresh_due_unconvertible.
    + rewrite (user_header_run env endpoint options (of_json (JObj m)))
        by (by rewrite ?Hs).
      unfold refresh_due. rewrite Hurl. cbn [andb].
      by rewrite bearer_unconvertible.
Qed.

Lemma header_resolution_rejects_only_unreadable_storage_witness :
  header_of (authorizedApiRequest failing (VStr "/members") VUndefined empty_state)
    empty_state
  = (Normal (Fulfilled VNull), empty_state)
  /\ does_not_reject
       (header_of (authorizedAsGuestApiRequest failing (VStr "/members") VUndefined
                     empty_state) empty_state)
  /\ header_of (authorizedApiRequest failing (VStr "/members") VUndefined empty_state)
       garbled_state
     = (Normal (Rejected SyntaxError), garbled_state)
  /\ header_of (authorizedAsGuestApiRequest failing (VStr "/members") VUndefined
                  empty_state) garbled_state
     = (Normal (Rejected SyntaxError), garbled_state)
  /\ header_of (authorizedApiRequest failing (VStr "/members") VUndefined empty_state)
       unprintable_state
     = (Normal (Rejected TypeError), unprintable_state).
Proof.
  assert (built (authorizedApiRequest failing (VStr "/members") VUndefined empty_state))
    as Huser by (eexists; reflexivity).
  assert (built (authorizedAsGuestApiRequest failing (VStr "/members") VUndefined
                   empty_state)) as Hguest by (eexists; reflexivity).
  destruct (header_resolution_rejects_only_unreadable_storage failing
              (VStr "/members") VUndefined empty_state empty_state Huser Hguest) as [H _].
  destruct (H eq_refl) as (_ & Hnull & Hplain).
  destruct (header_resolution_rejects_only_unreadable_storage failing
              (VStr "/members") VUndefined empty_state garbled_state Huser Hguest)
    as (_ & Huser' & Hguest' & _).
  destruct (header_resolution_rejects_only_unreadable_storage failing
              (VStr "/members") VUndefined empty_state unprintable_state Huser Hguest)
    as (_ & _ & _ & Htype).
  destruct (Htype _ eq_refl) as [_ Htoken].
  exact (conj (Hnull VNull eq_refl eq_refl)
          (conj (Hplain eq_refl)
             (conj (proj1 (Huser' eq_refl))
                (conj (Hguest' eq_refl) (Htoken eq_refl eq_refl))))).
Defined.

(** C4, as stated, fails four ways.  With text that is not JSON in the
    access-token slot the header of [authorizedApiRequest] is rejected.  When
    guest-token issuance fails, the rejection is not passed on: the header
    of [authorizedAsGuestApiRequest] stays pending.  When the refresh server
    answers an expired token with an error, the header is not [null]: it is
    the string "Bearer undefined".  With a stored [access_token] that cannot
    be converted to a string the header is rejected with a [TypeError]. *)
Lemma header_resolution_rejects_hangs_and_sends_no_token :
  header_of (authorizedApiRequest silent (VStr "/members") VUndefined garbled_state)
    garbled_state
  = (Normal (Rejected SyntaxError), garbled_state)
  /\ (getGuestToken failing empty_state).1
     = Normal (Rejected (Reason (VStr "network error")))
  /\ (header_of (authorizedAsGuestApiRequest failing (VStr "/members") VUndefined
                   empty_state) empty_state).1
     = Normal Pending
  /\ (header_of (authorizedApiRequest refusing (VStr "/members") VUndefined
                   refreshable_state) refreshable_state).1
     = Normal (Fulfilled (VStr "Bearer undefined"))
  /\ localStorage unprintable_state !! ACCESS_TOKEN_KEY
     = Some (Json (JObj {[ "access_token" := JObj {[ "toString" := JNum 1 ]} ]}))
  /\ header_of (authorizedApiRequest silent (VStr "/members") VUndefined unprintable_state)
       unprintable_state
     = (Normal (Rejected TypeError), unprintable_state).
Proof. repeat split. Qed.

(** * Further properties *)

(** ** What an operation leaves alone *)

Lemma confined_same (slot : string) (w w' : world) :
  vars w' = vars w -> localStorage w' = localStorage w -> sent w' = sent w ->
  confined slot w w'.
Proof. intros Hv Hs Hc. split; [done|]. split; [by rewrite Hs|]. by left. Qed.

Lemma confined_write (slot : string) (t : text) (w w' : world) :
  vars w' = vars w -> localStorage w' = <[slot := t]> (localStorage w) ->
  sent w' = sent w ->
  confined slot w w'.
Proof.
  intros Hv Hs Hc. split; [done|]. split; [|by left].
  intros key Hkey. by rewrite Hs, lookup_insert_ne.
Qed.

Lemma confined_call (slot : string) (r : request) (w w' : world) :
  vars w' = vars w -> localStorage w' = localStorage w -> sent w' = (sent w ++ [r])%list ->
  confined slot w w'.
Proof. intros Hv Hs Hc. split; [done|]. split; [by rewrite Hs|]. right. by exists r. Qed.

Lemma confined_call_write (slot : string) (t : text) (r : request) (w w' : world) :
  vars w' = vars w -> localStorage w' = <[slot := t]> (localStorage w) ->
  sent w' = (sent w ++ [r])%list ->
  confined slot w w'.
Proof.
  intros Hv Hs Hc. split; [done|]. split; [|right; by exists r].
  intros key Hkey. by rewrite Hs, lookup_insert_ne.
Qed.

(** Closes a goal [confined slot w w'] for a state [w'] that is known. *)
Ltac confine :=
  first [ apply confined_same; reflexivity
        | eapply confined_call; reflexivity
        | eapply confined_write; reflexivity
        | eapply confined_call_write; reflexivity ].

Lemma getGuestTokenFromServer_confined env (w : world) :
  confined GUEST_TOKEN_KEY w (getGuestTokenFromServer env w).2.
Proof.
  unfold getGuestTokenFromServer.
  rewrite (bind_val _ _ w (_guestTokenUrl (vars w)) w) by done.
  destruct (truthy (_guestTokenUrl (vars w))); [|confine].
  step. destruct (settled _) as [data|e|]; [|confine..].
  unfold then_. destruct data as [| |b|n|s|l m|m]; steps; confine.
Qed.

Lemma refreshAccessToken_confined env (w : world) :
  confined ACCESS_TOKEN_KEY w (refreshAccessToken env w).2.
Proof.
  unfold refreshAccessToken.
  rewrite (bind_val _ _ w (_refreshTokenUrl (vars w)) w) by done.
  destruct (truthy (_refreshTokenUrl (vars w))); [|confine].
  step. destruct (settled _) as [data|e|]; [|confine..].
  unfold then_. destruct data as [| |b|n|s|l m|m]; try (steps; confine).
  all: step; destruct (truthy (default VUndefined (m !! "Error"))); steps; confine.
Qed.

Lemma completeServerLogin_confined env (code : value) (w : world) :
  confined ACCESS_TOKEN_KEY w (completeServerLogin env code w).2.
Proof.
  unfold completeServerLogin.
  rewrite (bind_val _ _ w (_redirectUri (vars w)) w) by done.
  destruct (truthy (_redirectUri (vars w))).
  all: step; rewrite (bind_val _ _ w (_accessTokenUrl (vars w)) w) by done.
  all: destruct (truthy (_accessTokenUrl (vars w))); [|confine].
  all: step; destruct (settled _) as [data|e|]; [|confine..].
  all: unfold then_, and_; destruct (truthy data) eqn:Ht.
  all: destruct data as [| |b|n|s|l m|m]; try discriminate Ht.
  all: try (steps; confine).
  all: step.
  all: destruct (truthy (default VUndefined (m !! "expires_in"))) eqn:He;
    [step; destruct (truthy (default VUndefined (m !! "access_token"))) eqn:Ha|].
  all: steps; confine.
Qed.

Lemma completeImplicitLogin_confined (accessToken expiresIn : value) (w : world) :
  confined ACCESS_TOKEN_KEY w (completeImplicitLogin accessToken expiresIn w).2.
Proof.
  rewrite completeImplicitLogin_run. destruct (expiry _ _); confine.
Qed.

Lemma completeLogin_confined env (isServer : value) (w : world) :
  confined ACCESS_TOKEN_KEY w (completeLogin env isServer w).2.
Proof.
  destruct (truthy isServer) eqn:Hserver.
  - unfold completeLogin. rewrite Hserver.
    destruct (truthy (extractRedirectionCode env)); [|confine].
    destruct (extractRedirectionCode env); try confine.
    apply completeServerLogin_confined.
  - destruct (truthy (option_of (extractRedirectionTokenData env) "access_token")) eqn:Hp.
    + rewrite completeLogin_implicit by done.
      pose proof (completeImplicitLogin_confined
                    (prop (extractRedirectionTokenData env) "access_token")
                    (prop (extractRedirectionTokenData env) "expires_in") w) as H.
      by destruct (completeImplicitLogin _ _ w) as [[token|e] w'].
    + unfold completeLogin. rewrite Hserver.
      rewrite (bind_val _ _ _ _ _
                 (option_run (extractRedirectionTokenData env) "access_token" w)).
      rewrite Hp. confine.
Qed.

Lemma remove_access_confined (w : world) : confined ACCESS_TOKEN_KEY w (remove_access w).
Proof.
  split; [done|]. split; [|by left].
  intros key Hkey. cbn. by rewrite lookup_delete_ne.
Qed.

Lemma isAccessTokenValid_confined env (w : world) :
  confined ACCESS_TOKEN_KEY w (isAccessTokenValid env w).2.
Proof.
  rewrite isAccessTokenValid_run.
  destruct (JSON_parse _) as [token|e]; [|confine].
  destruct (lapsed env token (clock w)) as [[]|e], (usable env token (clock w));
    try confine.
  apply remove_access_confined.
Qed.

Lemma getGuestToken_confined env (w : world) :
  confined GUEST_TOKEN_KEY w (getGuestToken env w).2.
Proof.
  rewrite getGuestToken_run.
  destruct (JSON_parse (localStorage w !! GUEST_TOKEN_KEY)) as [guest|e]; [|confine].
  destruct (truthy guest).
  - destruct (usable env guest (clock w)) as [[]|e]; [confine| |confine].
    apply getGuestTokenFromServer_confined.
  - destruct (JSON_parse (localStorage w !! ACCESS_TOKEN_KEY)) as [token|e]; [|confine].
    destruct (usable env token (clock w)) as [[]|e]; [confine| |confine].
    apply getGuestTokenFromServer_confined.
Qed.

Lemma user_header_confined env (endpoint options : value) (w0 w : world) :
  confined ACCESS_TOKEN_KEY w
    (header_of (authorizedApiRequest env endpoint options w0) w).2.
Proof.
  destruct (authorizedApiRequest env endpoint options w0).1 as [r|e] eqn:Hr;
    [|unfold header_of; rewrite Hr; confine].
  assert (built (authorizedApiRequest env endpoint options w0)) as Hb by (by exists r).
  destruct (JSON_parse (localStorage w !! ACCESS_TOKEN_KEY)) as [token|e] eqn:Hp.
  - destruct (truthy token) eqn:Ht.
    + rewrite (user_header_run env endpoint options token) by done.
      destruct (refresh_due env w token) as [[]|e]; [|confine..].
      pose proof (refreshAccessToken_confined env w) as H.
      by destruct (refreshAccessToken env w) as [[[refreshed|e|]|e] w'].
    + rewrite header_of_user by done. unfold new_Promise.
      rewrite (bind_val _ _ w (localStorage w !! ACCESS_TOKEN_KEY) w) by done.
      rewrite (bind_val _ _ w token w) by (unfold lift; by rewrite Hp).
      rewrite Ht. confine.
  - rewrite header_of_user by done. unfold new_Promise.
    rewrite (bind_val _ _ w (localStorage w !! ACCESS_TOKEN_KEY) w) by done.
    rewrite (bind_throw _ _ w e w) by (unfold lift; by rewrite Hp). confine.
Qed.

Lemma guest_header_confined env (endpoint options : value) (w0 w : world) :
  confined GUEST_TOKEN_KEY w
    (header_of (authorizedAsGuestApiRequest env endpoint options w0) w).2.
Proof.
  destruct (authorizedAsGuestApiRequest env endpoint options w0).1 as [r|e] eqn:Hr;
    [|unfold header_of; rewrite Hr; confine].
  assert (built (authorizedAsGuestApiRequest env endpoint options w0)) as Hb
    by (by exists r).
  rewrite guest_header_run by done.
  pose proof (getGuestToken_confined env w) as H.
  by destruct (getGuestToken env w) as [[[token|e|]|e] w'].
Qed.

(** X1.  Every operation on the tokens leaves the variables of the module
    as they are, writes under no key of the storage but that of its own
    slot (the access-token key for the validity check, the logout, the
    login completions, the refresh and the header of [authorizedApiRequest];
    the guest-token key for [getGuestToken], guest-token issuance and the
    header of [authorizedAsGuestApiRequest]), and makes at most one call to
    the transport, which it adds after the calls made before.  The two
    getters of the access token change nothing at all. *)
Theorem operations_are_confined_to_their_slot
    (env : platform) (w w0 : world) (a b : value) :
  confined ACCESS_TOKEN_KEY w (isAccessTokenValid env w).2
  /\ confined ACCESS_TOKEN_KEY w (logout w).2
  /\ confined ACCESS_TOKEN_KEY w (completeImplicitLogin a b w).2
  /\ confined ACCESS_TOKEN_KEY w (completeServerLogin env a w).2
  /\ confined ACCESS_TOKEN_KEY w (completeLogin env a w).2
  /\ confined ACCESS_TOKEN_KEY w (refreshAccessToken env w).2
  /\ confined ACCESS_TOKEN_KEY w (header_of (authorizedApiRequest env a b w0) w).2
  /\ confined GUEST_TOKEN_KEY w (getGuestTokenFromServer env w).2
  /\ confined GUEST_TOKEN_KEY w (getGuestToken env w).2
  /\ confined GUEST_TOKEN_KEY w (header_of (authorizedAsGuestApiRequest env a b w0) w).2
  /\ (getAccessTokenObject w).2 = w
  /\ (getAccessToken w).2 = w.
Proof.
  split; [apply isAccessTokenValid_confined|].
  split; [apply remove_access_confined|].
  split; [apply completeImplicitLogin_confined|].
  split; [apply completeServerLogin_confined|].
  split; [apply completeLogin_confined|].
  split; [apply refreshAccessToken_confined|].
  split; [apply user_header_confined|].
  split; [apply getGuestTokenFromServer_confined|].
  split; [apply getGuestToken_confined|].
  split; [apply guest_header_confined|].
  rewrite getAccessTokenObject_run, getAccessToken_run.
  by destruct (JSON_parse _).
Qed.

(** ** After a logout *)

(** X2.  After [logout], in every state: [getAccessTokenObject] and
    [getAccessToken] return [null], [isAccessTokenValid] is false, the header
    of a request that [authorizedApiRequest] has built resolves to [null]
    (the request goes out without authorization), none of them changes the
    state, and a second [logout] changes nothing. *)
Theorem nothing_is_left_after_logout
    (env : platform) (endpoint options : value) (w0 w : world) :
  getAccessTokenObject (logout w).2 = (Normal VNull, (logout w).2)
  /\ getAccessToken (logout w).2 = (Normal VNull, (logout w).2)
  /\ isAccessTokenValid env (logout w).2 = (Normal false, (logout w).2)
  /\ (built (authorizedApiRequest env endpoint options w0) ->
      header_of (authorizedApiRequest env endpoint options w0) (logout w).2
      = (Normal (Fulfilled VNull), (logout w).2))
  /\ logout (logout w).2 = (Normal tt, (logout w).2).
Proof.
  assert (localStorage (logout w).2 !! ACCESS_TOKEN_KEY = None) as Hgone
    by apply lookup_delete_eq.
  split; [by rewrite getAccessTokenObject_run, Hgone|].
  split; [by rewrite getAccessToken_run, Hgone|].
  split; [by rewrite isAccessTokenValid_run, Hgone|].
  split.
  - intros Hb. rewrite header_of_user by done. unfold new_Promise.
    rewrite (bind_val _ _ _ (localStorage (logout w).2 !! ACCESS_TOKEN_KEY) (logout w).2)
      by done.
    by rewrite Hgone.
  - unfold logout, removeItem. cbn [snd vars localStorage clock sent].
    by rewrite delete_delete_eq.
Qed.

Lemma nothing_is_left_after_logout_witness :
  header_of (authorizedApiRequest silent (VStr "/members") VUndefined current_state)
    (logout current_state).2
  = (Normal (Fulfilled VNull), (logout current_state).2)
  /\ (header_of (authorizedApiRequest silent (VStr "/members") VUndefined current_state)
        current_state).1
     = Normal (Fulfilled (VStr "Bearer user")).
Proof.
  destruct (nothing_is_left_after_logout silent (VStr "/members") VUndefined
              current_state current_state) as (_ & _ & _ & H & _).
  split; [|reflexivity]. apply H. eexists. reflexivity.
Defined.

(** ** What the writers store *)

Lemma or_redirect env (m : gmap string value) (w : world) :
  (if truthy (_redirectUri (vars w))
   then lift (set (VObj m) "redirect_uri" (_redirectUri (vars w)))
   else lift (set (VObj m) "redirect_uri" (calculateRedirectUri env))) w
  = (Normal (VObj (<["redirect_uri" :=
                       or_ (_redirectUri (vars w)) (calculateRedirectUri env)]> m)), w).
Proof. unfold or_. by destruct (truthy (_redirectUri (vars w))). Qed.

(** [completeServerLogin] up to the answer of the server. *)
Lemma completeServerLogin_called env (code : value) (w : world) :
  truthy (_accessTokenUrl (vars w)) = true ->
  exists cb,
    completeServerLogin env code w
      = then_ (settled (respond env (exchange_call env code w))) cb
          (called env (exchange_call env code w) w)
    /\ (forall m W,
          exchanged (VObj m) = true ->
          then_ (Fulfilled (VObj m)) cb W =
            match expiry (Int (clock W)) (prop (VObj m) "expires_in") with
            | Normal expires_at =>
                (Normal (Fulfilled (prop (VObj m) "access_token")),
                 World (vars W)
                   (<[ACCESS_TOKEN_KEY :=
                        Json (JObj (omap to_json
                          (delete "refresh_token" (<["expires_at" := expires_at]> m))))]>
                      (localStorage W))
                   (clock W) (sent W))
            | Throw e => (Normal (Rejected e), W)
            end)
    /\ (forall data W,
          exchanged data = false ->
          then_ (Fulfilled data) cb W = (Normal (Rejected (refusal data)), W)).
Proof.
  intros Hurl. unfold completeServerLogin.
  rewrite (bind_val _ _ w (_redirectUri (vars w)) w) by done.
  rewrite (bind_val _ _ _ _ _ (or_redirect env _ w)).
  rewrite (bind_val _ _ w (_accessTokenUrl (vars w)) w) by done. rewrite Hurl.
  rewrite (bind_val _ _ w (settled (respond env (exchange_call env code w)))
             (called env (exchange_call env code w) w)) by done.
  assert (forall data W,
    match (let! message := lift (get data "Error") in
           let! error := lift (new_Error message) in
           ret (Rejected error)) W with
    | (Normal q, W') => (Normal q, W')
    | (Throw e, W') => (Normal (Rejected e), W')
    end = (Normal (@Rejected value (refusal data)), W)) as Hrefused.
  { intros data W. unfold bind, lift, ret, refusal.
    destruct (get data "Error") as [message|e]; [|done]. cbn [and_then].
    by destruct (new_Error message). }
  eexists. split; [reflexivity|]. split.
  - intros m W Hok. unfold exchanged, prop in Hok. cbn [truthy get andb] in Hok.
    apply andb_prop in Hok as [He Ha]. unfold then_, and_. cbn [truthy].
    step. rewrite He. step. rewrite Ha. do 2 step.
    change (default VUndefined (m !! "expires_in")) with (prop (VObj m) "expires_in").
    destruct (expiry (Int (clock W)) (prop (VObj m) "expires_in")) as [expires_at|e].
    + steps. unfold prop. cbn [get JSON_stringify to_json].
      by rewrite lookup_delete_ne, lookup_insert_ne.
    + by erewrite bind_throw by reflexivity.
  - intros data W Hno. unfold exchanged in Hno. unfold then_, and_.
    destruct (truthy data) eqn:Ht.
    + rewrite (bind_bind _ _ _ W).
      rewrite (bind_val _ _ W (prop data "expires_in") W)
        by (unfold lift; by rewrite truthy_get).
      cbn [andb] in Hno. destruct (truthy (prop data "expires_in")) eqn:He.
      * cbn [andb] in Hno.
        rewrite (bind_val _ _ W (prop data "access_token") W)
          by (unfold lift; by rewrite truthy_get).
        rewrite Hno. apply Hrefused.
      * rewrite (bind_val _ _ W (prop data "expires_in") W) by done.
        rewrite He. apply Hrefused.
    + rewrite (bind_val _ _ W data W) by done. rewrite Ht. apply Hrefused.
Qed.

Lemma refreshAccessToken_stored env (w : world) (m : gmap string value) :
  truthy (_refreshTokenUrl (vars w)) = true ->
  settled (respond env (refresh_call w)) = Fulfilled (VObj m) ->
  truthy (prop (VObj m) "Error") = false ->
  refreshAccessToken env w =
    match expiry (Int (clock (called env (refresh_call w) w)))
            (prop (VObj m) "expires_in") with
    | Normal expires_at =>
        (Normal (Fulfilled (VObj (<["expires_at" := expires_at]> m))),
         World (vars w)
           (<[ACCESS_TOKEN_KEY :=
                Json (JObj (omap to_json
                  (delete "refresh_token" (<["expires_at" := expires_at]> m))))]>
              (localStorage w))
           (clock (called env (refresh_call w) w)) (sent w ++ [refresh_call w]))
    | Throw e => (Normal (Rejected e), called env (refresh_call w) w)
    end.
Proof.
  intros Hurl Hreply Herr. unfold refreshAccessToken.
  rewrite (bind_val _ _ w (_refreshTokenUrl (vars w)) w) by done. rewrite Hurl.
  rewrite (bind_val _ _ w (settled (respond env (refresh_call w)))
             (called env (refresh_call w) w)) by done.
  rewrite Hreply. unfold then_.
  erewrite bind_val by reflexivity.
  change (default VUndefined (m !! "Error")) with (prop (VObj m) "Error").
  rewrite Herr. cbn [negb]. do 2 step.
  change (default VUndefined (m !! "expires_in")) with (prop (VObj m) "expires_in").
  destruct (expiry _ (prop (VObj m) "expires_in")) as [expires_at|e].
  - do 6 step. cbn [JSON_stringify to_json]. by rewrite !omap_delete, clone_members.
  - by erewrite bind_throw by reflexivity.
Qed.

Lemma getGuestTokenFromServer_stored env (w : world) (m : gmap string value) :
  truthy (_guestTokenUrl (vars w)) = true ->
  settled (respond env (guest_call w)) = Fulfilled (VObj m) ->
  getGuestTokenFromServer env w =
    match expiry (Int (clock (called env (guest_call w) w)))
            (prop (VObj m) "expires_in") with
    | Normal expires_at =>
        (Normal (Fulfilled (prop (VObj m) "access_token")),
         World (vars w)
           (<[GUEST_TOKEN_KEY :=
                Json (JObj (omap to_json (<["expires_at" := expires_at]> m)))]>
              (localStorage w))
           (clock (called env (guest_call w) w)) (sent w ++ [guest_call w]))
    | Throw e => (Normal (Rejected e), called env (guest_call w) w)
    end.
Proof.
  intros Hurl Hreply. unfold getGuestTokenFromServer.
  rewrite (bind_val _ _ w (_guestTokenUrl (vars w)) w) by done. rewrite Hurl.
  rewrite (bind_val _ _ w (settled (respond env (guest_call w)))
             (called env (guest_call w) w)) by done.
  rewrite Hreply. unfold then_. do 2 step.
  change (default VUndefined (m !! "expires_in")) with (prop (VObj m) "expires_in").
  destruct (expiry _ (prop (VObj m) "expires_in")) as [expires_at|e].
  - steps. unfold prop. cbn [get]. by rewrite lookup_insert_ne.
  - by erewrite bind_throw by reflexivity.
Qed.

(** ** Reading a record that a writer has stamped *)

(** An integer up to [2 ^ 53] is the value of a double. *)
Lemma exact_safe (z : Z) : Z.abs z <= 2 ^ 53 -> exact z.
Proof.
  intros H. unfold exact, double. by destruct (Z.leb_spec (Z.abs z) (2 ^ 53)); [|lia].
Qed.

Lemma expiry_seconds (now n : Z) (expiresIn : value) :
  parseInt expiresIn = Normal (Int n) ->
  exact (n * 1000) ->
  exact (now + n * 1000) ->
  expiry (Int now) expiresIn = Normal (VNum (Int (now + n * 1000))).
Proof.
  unfold expiry, exact. intros -> Hproduct Hsum. cbn [and_then nmul nadd].
  rewrite Hproduct. cbn [nadd]. by rewrite Hsum.
Qed.

Lemma expiry_unreadable (now : Z) (expiresIn : value) (n : number) :
  parseInt expiresIn = Normal n ->
  finite n = false ->
  exists n', expiry (Int now) expiresIn = Normal (VNum n') /\ to_json (VNum n') = Some JNull.
Proof.
  unfold expiry. intros -> Hn. cbn [and_then].
  destruct n as [z| |s]; [done|..]; by eexists.
Qed.

Lemma usable_stamped env (M : gmap string value) (E now : Z) :
  M !! "expires_at" = Some (VNum (Int E)) ->
  0 <= now ->
  usable env (of_json (JObj (omap to_json M))) now = Normal (now <? E).
Proof.
  intros HE Hnow. rewrite (usable_record _ _ E) by (by rewrite lookup_omap, HE).
  f_equal. destruct (Z.ltb_spec now E), (Z.eqb_spec E 0); cbn; try done. lia.
Qed.

Lemma guard_unstamped (M : gmap string value) (n : number)
    (cmp : value -> completion bool) :
  M !! "expires_at" = Some (VNum n) ->
  to_json (VNum n) = Some JNull ->
  guard (of_json (JObj (omap to_json M))) cmp = Normal false.
Proof.
  intros HE Hn. apply guard_no_expiry. rewrite prop_record, lookup_omap, HE.
  cbn [mbind option_bind]. by rewrite Hn.
Qed.

Lemma stamped_token (M : gmap string value) (t : string) :
  M !! "access_token" = Some (VStr t) ->
  prop (of_json (JObj (omap to_json M))) "access_token" = VStr t.
Proof. intros Ht. by rewrite prop_record, lookup_omap, Ht. Qed.

Lemma truthy_string (t : string) : truthy (VStr t) = negb (String.eqb t "").
Proof. done. Qed.

(** The answer of [isAccessTokenValid] when the validity guard is known. *)
Lemma isAccessTokenValid_answer env (w : world) (token : value) (b : bool) :
  JSON_parse (localStorage w !! ACCESS_TOKEN_KEY) = Normal token ->
  usable env token (clock w) = Normal b ->
  (isAccessTokenValid env w).1 = Normal b.
Proof.
  intros Hp Hu. rewrite isAccessTokenValid_run, Hp, Hu.
  pose proof (lapsed_usable env token (clock w)) as Hboth. rewrite Hu in Hboth.
  by destruct (lapsed env token (clock w)).
Qed.

(** ** The lifetime of a token *)

(** X3.  A token stored by the completion of an implicit login with a
    lifetime of [n] seconds ([parseInt(expiresIn)] is [n], and the time of
    the expiry is computed without rounding, as it is for every time and
    lifetime up to [2 ^ 53]) is valid exactly as long as the clock, at or
    after the epoch, is before the time of the login plus [n * 1000]
    milliseconds: this is the answer of [isAccessTokenValid] in every later
    state that still holds the record.  With a lifetime of zero the token is
    invalid at once.  [getAccessToken] returns the token, whenever it is
    asked, unless it is the empty string. *)
Theorem implicit_login_token_lives_for_its_lifetime
    (env : platform) (t : string) (expiresIn : value) (n : Z) (w later : world) :
  parseInt expiresIn = Normal (Int n) ->
  exact (n * 1000) ->
  exact (clock w + n * 1000) ->
  localStorage later !! ACCESS_TOKEN_KEY
    = localStorage (completeImplicitLogin (VStr t) expiresIn w).2 !! ACCESS_TOKEN_KEY ->
  0 <= clock later ->
  (completeImplicitLogin (VStr t) expiresIn w).1 = Normal (VStr t)
  /\ (isAccessTokenValid env later).1 = Normal (clock later <? clock w + n * 1000)
  /\ getAccessToken later
     = (Normal (if String.eqb t "" then VNull else VStr t), later).
Proof.
  intros Hn Hproduct Hsum Hslot Hnow. rewrite completeImplicitLogin_run in *.
  rewrite (expiry_seconds _ n) in * by done.
  cbn [fst snd localStorage] in *. rewrite lookup_insert_eq in Hslot.
  cbn [JSON_stringify to_json] in Hslot.
  split; [done|]. split.
  - eapply isAccessTokenValid_answer; [by rewrite Hslot|].
    by rewrite (usable_stamped _ _ (clock w + n * 1000))
      by (done || by rewrite lookup_insert_eq).
  - rewrite getAccessToken_run, Hslot. cbn [JSON_parse].
    rewrite (stamped_token _ t) by (by rewrite lookup_insert_ne, lookup_insert_eq).
    change (truthy (of_json (JObj ?m))) with true. cbn [andb].
    rewrite truthy_string. by destruct (String.eqb t "").
Qed.

Lemma implicit_login_token_lives_for_its_lifetime_witness :
  (isAccessTokenValid silent
     (completeImplicitLogin (VStr "user") (VStr "0") empty_state).2).1 = Normal false
  /\ (isAccessTokenValid silent
        (World full_config
           (localStorage (completeImplicitLogin (VStr "user") (VStr "3600") empty_state).2)
           3600009 [])).1 = Normal true.
Proof.
  split.
  - apply (implicit_login_token_lives_for_its_lifetime silent "user" (VStr "0") 0
             empty_state (completeImplicitLogin (VStr "user") (VStr "0") empty_state).2
             eq_refl eq_refl eq_refl eq_refl ltac:(done)).
  - apply (implicit_login_token_lives_for_its_lifetime silent "user" (VStr "3600") 3600
             empty_state
             (World full_config
                (localStorage
                   (completeImplicitLogin (VStr "user") (VStr "3600") empty_state).2)
                3600009 [])
             eq_refl eq_refl eq_refl eq_refl ltac:(done)).
Defined.

(** X4.  When the lifetime given to the completion of an implicit login
    is not a number of seconds ([parseInt(expiresIn)] is [NaN], as for a
    missing [expires_in], or is infinite), the record is stored with an
    [expires_at] of [null]: [isAccessTokenValid] is false at every time and
    never removes the record, and [getAccessToken] goes on returning the
    token. *)
Theorem implicit_login_without_lifetime_is_never_valid
    (env : platform) (t : string) (expiresIn : value) (n : number) (w later : world) :
  parseInt expiresIn = Normal n ->
  finite n = false ->
  t <> "" ->
  localStorage later !! ACCESS_TOKEN_KEY
    = localStorage (completeImplicitLogin (VStr t) expiresIn w).2 !! ACCESS_TOKEN_KEY ->
  isAccessTokenValid env later = (Normal false, later)
  /\ getAccessToken later = (Normal (VStr t), later).
Proof.
  intros Hn Hfinite Ht Hslot. rewrite completeImplicitLogin_run in Hslot.
  destruct (expiry_unreadable (clock w) expiresIn n Hn Hfinite) as (n' & Hexpiry & Hnull).
  rewrite Hexpiry in Hslot.
  cbn [snd localStorage] in Hslot. rewrite lookup_insert_eq in Hslot.
  unfold JSON_stringify in Hslot. cbn [to_json] in Hslot.
  split.
  - rewrite isAccessTokenValid_run, Hslot. cbn [JSON_parse]. unfold usable, lapsed.
    by rewrite !(guard_unstamped _ n') by (done || by rewrite lookup_insert_eq).
  - rewrite getAccessToken_run, Hslot. cbn [JSON_parse].
    rewrite (stamped_token _ t) by (by rewrite lookup_insert_ne, lookup_insert_eq).
    change (truthy (of_json (JObj ?m))) with true. cbn [andb].
    rewrite truthy_string. destruct (String.eqb_spec t ""); done.
Qed.

Lemma implicit_login_without_lifetime_is_never_valid_witness :
  isAccessTokenValid silent
    (completeImplicitLogin (VStr "user") VUndefined empty_state).2
  = (Normal false, (completeImplicitLogin (VStr "user") VUndefined empty_state).2)
  /\ getAccessToken (completeImplicitLogin (VStr "user") VUndefined empty_state).2
     = (Normal (VStr "user"),
        (completeImplicitLogin (VStr "user") VUndefined empty_state).2).
Proof.
  apply (implicit_login_without_lifetime_is_never_valid silent "user" VUndefined NaN
           empty_state (completeImplicitLogin (VStr "user") VUndefined empty_state).2
           eq_refl eq_refl ltac:(done) eq_refl).
Defined.

(** X5.  A guest token issued by the server (an object with the token
    [access_token] and a lifetime of [n] seconds, the time of the expiry
    being computed without rounding) is what [getGuestTokenFromServer]
    resolves to, and it is stored: in every later state that still holds
    the record, [getGuestToken] resolves to the same token, without a call
    and without a change of state, as long as the clock is before the time
    of the answer plus [n * 1000] milliseconds; from then on it asks the
    server again. *)
Theorem issued_guest_token_is_reused_until_it_expires
    (env env' : platform) (w later : world) (m : gmap string value) (t : string) (n : Z) :
  truthy (_guestTokenUrl (vars w)) = true ->
  settled (respond env (guest_call w)) = Fulfilled (VObj m) ->
  m !! "access_token" = Some (VStr t) ->
  parseInt (prop (VObj m) "expires_in") = Normal (Int n) ->
  exact (n * 1000) ->
  exact (clock w + elapsed (respond env (guest_call w)) + n * 1000) ->
  localStorage later !! GUEST_TOKEN_KEY
    = localStorage (getGuestTokenFromServer env w).2 !! GUEST_TOKEN_KEY ->
  0 <= clock later ->
  (getGuestTokenFromServer env w).1 = Normal (Fulfilled (VStr t))
  /\ getGuestToken env' later =
       if clock later <? clock w + elapsed (respond env (guest_call w)) + n * 1000
       then (Normal (Fulfilled (VStr t)), later)
       else getGuestTokenFromServer env' later.
Proof.
  intros Hurl Hreply Ht Hn Hproduct Hsum Hslot Hnow.
  rewrite (getGuestTokenFromServer_stored env w m) in * by done.
  cbn [clock called] in *. rewrite (expiry_seconds _ n) in * by done.
  cbn [fst snd localStorage] in *. rewrite lookup_insert_eq in Hslot.
  split; [unfold prop; cbn [get]; by rewrite Ht|].
  rewrite getGuestToken_run, Hslot. cbn [JSON_parse].
  change (truthy (of_json (JObj ?j))) with true. cbv iota.
  rewrite (usable_stamped _ _ (clock w + elapsed (respond env (guest_call w)) + n * 1000))
    by (done || by rewrite lookup_insert_eq).
  rewrite (stamped_token _ t) by (by rewrite lookup_insert_ne).
  by destruct (clock later <? _).
Qed.

Lemma issued_guest_token_is_reused_until_it_expires_witness :
  getGuestToken silent (getGuestTokenFromServer issuing empty_state).2
  = (Normal (Fulfilled (VStr "fresh")), (getGuestTokenFromServer issuing empty_state).2).
Proof.
  destruct (issued_guest_token_is_reused_until_it_expires issuing silent empty_state
              (getGuestTokenFromServer issuing empty_state).2
              {[ "access_token" := VStr "fresh"; "expires_in" := VNum (Int 3600);
                 "refresh_token" := VStr "secret" ]} "fresh" 3600
              eq_refl eq_refl eq_refl eq_refl eq_refl eq_refl eq_refl ltac:(done))
    as [_ H].
  exact H.
Defined.

(** ** The exchange of a code *)

(** X6.  When the access-token server answers the exchange of a code with
    an object that has a truthy [expires_in] and a truthy [access_token],
    and the time of the expiry can be computed (the [parseInt] of
    [expires_in] does not throw), [completeServerLogin] makes one call, with
    credentials, whose parameters are the code and the redirection URI (the
    configured one, or else the calculated one); it stores under the
    access-token key the members of the answer with [expires_at] set and
    without [refresh_token], and resolves to the [access_token] of the
    answer. *)
Theorem exchanged_code_is_stored_and_resolved
    (env : platform) (code : value) (w : world) (m : gmap string value)
    (expires_at : value) :
  truthy (_accessTokenUrl (vars w)) = true ->
  settled (respond env (exchange_call env code w)) = Fulfilled (VObj m) ->
  exchanged (VObj m) = true ->
  expiry (Int (clock w + elapsed (respond env (exchange_call env code w))))
    (prop (VObj m) "expires_in") = Normal expires_at ->
  completeServerLogin env code w =
    (Normal (Fulfilled (prop (VObj m) "access_token")),
     World (vars w)
       (<[ACCESS_TOKEN_KEY :=
            Json (JObj (omap to_json
              (delete "refresh_token" (<["expires_at" := expires_at]> m))))]>
          (localStorage w))
       (clock w + elapsed (respond env (exchange_call env code w)))
       (sent w ++ [exchange_call env code w])).
Proof.
  intros Hurl Hreply Hok Hexpiry.
  destruct (completeServerLogin_called env code w Hurl) as (cb & -> & Hcb & _).
  rewrite Hreply, Hcb by done. cbn [clock called]. by rewrite Hexpiry.
Qed.

Lemma exchanged_code_is_stored_and_resolved_witness :
  (completeServerLogin issuing (VStr "abc123") empty_state).1
  = Normal (Fulfilled (VStr "fresh"))
  /\ localStorage (completeServerLogin issuing (VStr "abc123") empty_state).2
       !! ACCESS_TOKEN_KEY
     = Some (Json (JObj {[ "access_token" := JStr "fresh";
                           "expires_in" := JNum 3600;
                           "expires_at" := JNum 3600260 ]})).
Proof.
  rewrite (exchanged_code_is_stored_and_resolved issuing (VStr "abc123") empty_state
             {[ "access_token" := VStr "fresh"; "expires_in" := VNum (Int 3600);
                "refresh_token" := VStr "secret" ]} (VNum (Int 3600260))
             eq_refl eq_refl eq_refl eq_refl).
  split; vm_compute; reflexivity.
Defined.

(** X7.  When the answer of the access-token server fails the test
    [data && data.expires_in && data.access_token], [completeServerLogin]
    stores nothing and its promise is rejected: with [new Error(data.Error)]
    (the error reported by the server, written as a string, or an error
    without message when there is none), and with a [TypeError] when the
    answer is [null] or [undefined], so that [data.Error] cannot be read, or
    when [data.Error] has no string. *)
Theorem refused_exchange_rejects_and_stores_nothing
    (env : platform) (code data : value) (w : world) :
  truthy (_accessTokenUrl (vars w)) = true ->
  settled (respond env (exchange_call env code w)) = Fulfilled data ->
  exchanged data = false ->
  completeServerLogin env code w =
    (Normal (Rejected (refusal data)), called env (exchange_call env code w) w)
  /\ refusal data =
       match data with
       | VUndefined | VNull => TypeError
       | _ =>
           match prop data "Error" with
           | VUndefined => Error VUndefined
           | message =>
               match string_of message with
               | Some s => Error (VStr s)
               | None => TypeError
               end
           end
       end.
Proof.
  intros Hurl Hreply Hno. split.
  - destruct (completeServerLogin_called env code w Hurl) as (cb & -> & _ & Hcb).
    rewrite Hreply. by rewrite Hcb.
  - unfold refusal, prop, new_Error, ToString.
    destruct data as [| |b|n|s|l m|m]; try done.
    all: cbn [get and_then].
    all: destruct (default VUndefined (m !! "Error")) as [| |[]|n|s|l' m'|m'];
      try done.
    all: by destruct (string_of _).
Qed.

Lemma refused_exchange_rejects_and_stores_nothing_witness :
  completeServerLogin refusing (VStr "abc123") empty_state
  = (Normal (Rejected (Error (VStr "invalid grant"))),
     called refusing (exchange_call refusing (VStr "abc123") empty_state) empty_state)
  /\ (completeServerLogin (example_platform (Fulfilled VNull)) (VStr "abc123")
        empty_state).1
     = Normal (Rejected TypeError).
Proof.
  split.
  - apply (refused_exchange_rejects_and_stores_nothing refusing (VStr "abc123")
             (VObj {[ "Error" := VStr "invalid grant" ]}) empty_state
             eq_refl eq_refl eq_refl).
  - destruct (refused_exchange_rejects_and_stores_nothing
               (example_platform (Fulfilled VNull)) (VStr "abc123") VNull empty_state
               eq_refl eq_refl eq_refl) as [-> _].
    reflexivity.
Defined.

(** ** Failures of the transport *)

(** X8.  When the transport does not deliver an answer (its promise is
    rejected, or never settles), guest-token issuance, the exchange of a
    code and the refresh pass this on as it is: their promise is rejected
    with the same reason, or stays pending; one call has been made, none is
    made again, and the storage is as it was. *)
Theorem transport_failure_is_passed_on
    (env : platform) (code : value) (w : world) (p : promise value) :
  (forall data, p <> Fulfilled data) ->
  (truthy (_guestTokenUrl (vars w)) = true ->
   settled (respond env (guest_call w)) = p ->
   getGuestTokenFromServer env w = (Normal p, called env (guest_call w) w))
  /\ (truthy (_accessTokenUrl (vars w)) = true ->
      settled (respond env (exchange_call env code w)) = p ->
      completeServerLogin env code w
        = (Normal p, called env (exchange_call env code w) w))
  /\ (truthy (_refreshTokenUrl (vars w)) = true ->
      settled (respond env (refresh_call w)) = p ->
      refreshAccessToken env w = (Normal p, called env (refresh_call w) w)).
Proof.
  intros Hp. split; [|split]; intros Hurl Hreply.
  - unfold getGuestTokenFromServer.
    rewrite (bind_val _ _ w (_guestTokenUrl (vars w)) w) by done. rewrite Hurl.
    rewrite (bind_val _ _ w (settled (respond env (guest_call w)))
               (called env (guest_call w) w)) by done.
    rewrite Hreply. destruct p as [data| |]; [by destruct (Hp data)|done..].
  - destruct (completeServerLogin_called env code w Hurl) as (cb & -> & _).
    rewrite Hreply. destruct p as [data| |]; [by destruct (Hp data)|done..].
  - unfold refreshAccessToken.
    rewrite (bind_val _ _ w (_refreshTokenUrl (vars w)) w) by done. rewrite Hurl.
    rewrite (bind_val _ _ w (settled (respond env (refresh_call w)))
               (called env (refresh_call w) w)) by done.
    rewrite Hreply. destruct p as [data| |]; [by destruct (Hp data)|done..].
Qed.

Lemma transport_failure_is_passed_on_witness :
  getGuestTokenFromServer failing empty_state
  = (Normal (Rejected (Reason (VStr "network error"))),
     called failing (guest_call empty_state) empty_state)
  /\ completeServerLogin failing (VStr "abc123") empty_state
     = (Normal (Rejected (Reason (VStr "network error"))),
        called failing (exchange_call failing (VStr "abc123") empty_state) empty_state)
  /\ refreshAccessToken silent empty_state
     = (Normal Pending, called silent (refresh_call empty_state) empty_state).
Proof.
  destruct (transport_failure_is_passed_on failing (VStr "abc123") empty_state
              (Rejected (Reason (VStr "network error"))) ltac:(discriminate))
    as (Hguest & Hexchange & _).
  destruct (transport_failure_is_passed_on silent (VStr "abc123") empty_state
              Pending ltac:(discriminate)) as (_ & _ & Hrefresh).
  exact (conj (Hguest eq_refl eq_refl)
           (conj (Hexchange eq_refl eq_refl) (Hrefresh eq_refl eq_refl))).
Defined.

(** ** The header of an authorized request *)

Lemma settle_bearer (token : value) :
  settle (bearer token)
  = match string_of token with
    | Some s => Fulfilled (VStr ("Bearer " +:+ s))
    | None => Rejected TypeError
    end.
Proof. unfold bearer, ToString. by destruct (string_of token). Qed.

Lemma resolved_later_bearer (token : value) :
  resolved_later (bearer token)
  = match string_of token with
    | Some s => Fulfilled (VStr ("Bearer " +:+ s))
    | None => Pending
    end.
Proof. unfold bearer, ToString. by destruct (string_of token). Qed.

Lemma refresh_due_record env (w : world) (m : gmap string json) (e : Z) :
  m !! "expires_at" = Some (JNum e) ->
  refresh_due env w (of_json (JObj m))
  = Normal (truthy (_refreshTokenUrl (vars w)) && negb (e =? 0) && (e <? clock w)).
Proof.
  intros He. unfold refresh_due. rewrite prop_record, He.
  cbn [fmap option_fmap option_map default from_option id of_json truthy].
  by destruct (truthy (_refreshTokenUrl (vars w))), (e =? 0).
Qed.

(** X9.  The header of a request that [authorizedApiRequest] has built
    sends a stored token as it is, with no call to any server and no change
    of state, in three cases: no refresh server is configured (the token is
    sent even when it has expired); the record has no [expires_at]; the
    expiry is not before the current time.  The header is "Bearer "
    followed by the [access_token] of the record, as a string ("Bearer
    undefined" for a record without one); when the [access_token] has no
    string the promise of the header is rejected with a [TypeError]. *)
Theorem stored_token_is_sent_without_refresh
    (env : platform) (endpoint options : value) (w0 w : world) (m : gmap string json) :
  built (authorizedApiRequest env endpoint options w0) ->
  localStorage w !! ACCESS_TOKEN_KEY = Some (Json (JObj m)) ->
  truthy (_refreshTokenUrl (vars w)) = false
  \/ m !! "expires_at" = None
  \/ (exists e, m !! "expires_at" = Some (JNum e) /\ clock w <= e) ->
  header_of (authorizedApiRequest env endpoint options w0) w
  = (Normal match string_of (prop (of_json (JObj m)) "access_token") with
            | Some s => Fulfilled (VStr ("Bearer " +:+ s))
            | None => Rejected TypeError
            end, w).
Proof.
  intros Hb Hs Hcase.
  rewrite (user_header_run env endpoint options (of_json (JObj m))) by (by rewrite ?Hs).
  assert (refresh_due env w (of_json (JObj m)) = Normal false) as ->;
    [|by rewrite settle_bearer].
  destruct Hcase as [Hurl|[Habsent|(e & He & Hle)]].
  - unfold refresh_due. by rewrite Hurl.
  - unfold refresh_due. rewrite prop_record, Habsent. cbn. by rewrite andb_false_r.
  - rewrite (refresh_due_record _ _ _ e) by done.
    destruct (Z.ltb_spec e (clock w)); [lia|]. by rewrite andb_false_r.
Qed.

Lemma stored_token_is_sent_without_refresh_witness :
  header_of (authorizedApiRequest silent (VStr "/members") VUndefined empty_state)
    expired_state
  = (Normal (Fulfilled (VStr "Bearer user")), expired_state)
  /\ header_of (authorizedApiRequest silent (VStr "/members") VUndefined empty_state)
       stale_guest_state
     = (Normal (Fulfilled (VStr "Bearer user")), stale_guest_state)
  /\ header_of (authorizedApiRequest silent (VStr "/members") VUndefined empty_state)
       unprintable_state
     = (Normal (Rejected TypeError), unprintable_state).
Proof.
  assert (built (authorizedApiRequest silent (VStr "/members") VUndefined empty_state))
    as Hb by (eexists; reflexivity).
  split; [|split].
  - rewrite (stored_token_is_sent_without_refresh silent (VStr "/members") VUndefined
               empty_state expired_state (token_record "user" 5) Hb eq_refl
               (or_introl eq_refl)).
    vm_compute. reflexivity.
  - assert (exists e, token_record "user" 9000 !! "expires_at" = Some (JNum e)
                      /\ clock stale_guest_state <= e) as Hcurrent.
    { exists 9000. split; [reflexivity|]. vm_compute. discriminate. }
    rewrite (stored_token_is_sent_without_refresh silent (VStr "/members") VUndefined
               empty_state stale_guest_state (token_record "user" 9000) Hb eq_refl
               (or_intror (or_intror Hcurrent))).
    vm_compute. reflexivity.
  - rewrite (stored_token_is_sent_without_refresh silent (VStr "/members") VUndefined
               empty_state unprintable_state
               {[ "access_token" := JObj {[ "toString" := JNum 1 ]} ]} Hb eq_refl
               (or_introl eq_refl)).
    vm_compute. reflexivity.
Defined.

(** X10.  With a refresh server configured and a stored token that has
    expired, the header of a request that [authorizedApiRequest] has built
    refreshes the token before the request goes out: when the server
    answers with an object that carries no error and whose lifetime can be
    converted, one call is made, the state is the one [refreshAccessToken]
    leaves (the new record is stored), and the header is "Bearer " followed
    by the [access_token] of the answer, as a string; when that
    [access_token] has no string the promise of the header stays pending. *)
Theorem expired_token_is_refreshed_for_the_header
    (env : platform) (endpoint options : value) (w0 w : world)
    (m : gmap string json) (e : Z) (r : gmap string value) (expires_at : value) :
  built (authorizedApiRequest env endpoint options w0) ->
  localStorage w !! ACCESS_TOKEN_KEY = Some (Json (JObj m)) ->
  m !! "expires_at" = Some (JNum e) ->
  e <> 0 ->
  e < clock w ->
  truthy (_refreshTokenUrl (vars w)) = true ->
  settled (respond env (refresh_call w)) = Fulfilled (VObj r) ->
  truthy (prop (VObj r) "Error") = false ->
  expiry (Int (clock w + elapsed (respond env (refresh_call w))))
    (prop (VObj r) "expires_in") = Normal expires_at ->
  header_of (authorizedApiRequest env endpoint options w0) w
  = (Normal match string_of (prop (VObj r) "access_token") with
            | Some s => Fulfilled (VStr ("Bearer " +:+ s))
            | None => Pending
            end,
     (refreshAccessToken env w).2)
  /\ sent (refreshAccessToken env w).2 = (sent w ++ [refresh_call w])%list
  /\ localStorage (refreshAccessToken env w).2 !! ACCESS_TOKEN_KEY
     = Some (Json (JObj (omap to_json
         (delete "refresh_token" (<["expires_at" := expires_at]> r))))).
Proof.
  intros Hb Hs He Hz Hlt Hurl Hreply Herr Hexpiry.
  rewrite (user_header_run env endpoint options (of_json (JObj m))) by (by rewrite ?Hs).
  rewrite (refresh_due_record _ _ _ e), Hurl by done.
  destruct (Z.eqb_spec e 0); [done|]. destruct (Z.ltb_spec e (clock w)); [|lia].
  cbn [andb negb].
  rewrite (refreshAccessToken_stored env w r) by done. cbn [clock called].
  rewrite Hexpiry. cbn [snd sent localStorage].
  split; [|split; [done|by rewrite lookup_insert_eq]].
  cbn [truthy]. rewrite resolved_later_bearer.
  unfold prop. cbn [get]. by rewrite lookup_insert_ne.
Qed.

Lemma expired_token_is_refreshed_for_the_header_witness :
  (header_of (authorizedApiRequest issuing (VStr "/members") VUndefined empty_state)
     refreshable_state).1
  = Normal (Fulfilled (VStr "Bearer fresh")).
Proof.
  destruct (expired_token_is_refreshed_for_the_header issuing (VStr "/members")
              VUndefined empty_state refreshable_state (token_record "user" 5) 5
              {[ "access_token" := VStr "fresh"; "expires_in" := VNum (Int 3600);
                 "refresh_token" := VStr "secret" ]} (VNum (Int 3600260))
              ltac:(eexists; reflexivity)
              eq_refl eq_refl ltac:(done) ltac:(done) eq_refl eq_refl eq_refl eq_refl)
    as [H _].
  rewrite H. reflexivity.
Defined.

(** [refreshAccessToken] up to the answer of the server. *)
Lemma refreshAccessToken_called env (w : world) :
  truthy (_refreshTokenUrl (vars w)) = true ->
  refreshAccessToken env w =
    then_ (settled (respond env (refresh_call w)))
      (fun data =>
         let! err := lift (get data "Error") in
         let! data :=
           if negb (truthy err) then
             let! now := Date_now in
             let! expires_in := lift (get data "expires_in") in
             let! expires_at := lift (expiry now expires_in) in
             let! data := lift (set data "expires_at" expires_at) in
             let! clonedData := lift (JSON_parse (Some (JSON_stringify data))) in
             let! clonedData := lift (delete_ clonedData "refresh_token") in
             do! setItem ACCESS_TOKEN_KEY (JSON_stringify clonedData) in
             ret data
           else ret data in
         ret (Fulfilled data))
      (called env (refresh_call w) w).
Proof.
  intros Hurl. unfold refreshAccessToken.
  rewrite (bind_val _ _ w (_refreshTokenUrl (vars w)) w) by done. rewrite Hurl.
  by rewrite (bind_val _ _ w (settled (respond env (refresh_call w)))
                (called env (refresh_call w) w)) by done.
Qed.

(** X11.  When the refresh that the header of [authorizedApiRequest] asks
    for does not bring a token, the header is not [null].  If the server
    answers with a response that carries an error indicator, nothing is
    stored and the header is "Bearer " followed by the [access_token] of
    that response, as a string ("Bearer undefined" when it has none), and
    stays pending when that [access_token] has no string.  If the transport
    does not deliver an answer, or the lifetime of the answer cannot be
    converted, the promise of the header never settles. *)
Theorem failed_refresh_leaves_no_null_header
    (env : platform) (endpoint options : value) (w0 w : world)
    (m : gmap string json) (e : Z) :
  built (authorizedApiRequest env endpoint options w0) ->
  localStorage w !! ACCESS_TOKEN_KEY = Some (Json (JObj m)) ->
  m !! "expires_at" = Some (JNum e) ->
  e <> 0 ->
  e < clock w ->
  truthy (_refreshTokenUrl (vars w)) = true ->
  (forall data,
     settled (respond env (refresh_call w)) = Fulfilled data ->
     truthy (prop data "Error") = true ->
     header_of (authorizedApiRequest env endpoint options w0) w
     = (Normal match string_of (prop data "access_token") with
               | Some s => Fulfilled (VStr ("Bearer " +:+ s))
               | None => Pending
               end,
        called env (refresh_call w) w))
  /\ ((forall data, settled (respond env (refresh_call w)) <> Fulfilled data) ->
      header_of (authorizedApiRequest env endpoint options w0) w
      = (Normal Pending, called env (refresh_call w) w))
  /\ (forall r error,
        settled (respond env (refresh_call w)) = Fulfilled (VObj r) ->
        truthy (prop (VObj r) "Error") = false ->
        expiry (Int (clock w + elapsed (respond env (refresh_call w))))
          (prop (VObj r) "expires_in") = Throw error ->
        header_of (authorizedApiRequest env endpoint options w0) w
        = (Normal Pending, called env (refresh_call w) w)).
Proof.
  intros Hb Hs He Hz Hlt Hurl.
  assert (header_of (authorizedApiRequest env endpoint options w0) w =
    match refreshAccessToken env w with
    | (Normal (Fulfilled refreshed), w') =>
        (Normal (resolved_later
                   (if truthy refreshed then bearer (prop refreshed "access_token")
                    else Normal VNull)), w')
    | (Normal _, w') => (Normal Pending, w')
    | (Throw e, w') => (Normal (Rejected e), w')
    end) as ->.
  { rewrite (user_header_run env endpoint options (of_json (JObj m))) by (by rewrite ?Hs).
    rewrite (refresh_due_record _ _ _ e), Hurl by done.
    destruct (Z.eqb_spec e 0); [done|]. by destruct (Z.ltb_spec e (clock w)); [|lia]. }
  split; [|split].
  - intros data Hreply Herr. rewrite refreshAccessToken_called, Hreply by done.
    cbn [then_].
    assert (truthy data = true) as Ht by (by destruct data).
    rewrite (bind_val _ _ _ (prop data "Error") (called env (refresh_call w) w))
      by (unfold lift; by rewrite truthy_get).
    rewrite Herr. cbn [negb]. steps. cbv beta iota delta [ret].
    by rewrite Ht, resolved_later_bearer.
  - intros Hnone. rewrite refreshAccessToken_called by done.
    destruct (settled _) as [data|e'|]; [by destruct (Hnone data)|done..].
  - intros r error Hreply Herr Hexpiry.
    rewrite (refreshAccessToken_stored env w r) by done. cbn [clock called].
    by rewrite Hexpiry.
Qed.

Lemma failed_refresh_leaves_no_null_header_witness :
  (header_of (authorizedApiRequest refusing (VStr "/members") VUndefined empty_state)
     refreshable_state).1
  = Normal (Fulfilled (VStr "Bearer undefined"))
  /\ (header_of (authorizedApiRequest failing (VStr "/members") VUndefined empty_state)
        refreshable_state).1
     = Normal Pending.
Proof.
  destruct (failed_refresh_leaves_no_null_header refusing (VStr "/members") VUndefined
              empty_state refreshable_state (token_record "user" 5) 5
              ltac:(eexists; reflexivity)
              eq_refl eq_refl ltac:(done) ltac:(done) eq_refl) as [Herror _].
  destruct (failed_refresh_leaves_no_null_header failing (VStr "/members") VUndefined
              empty_state refreshable_state (token_record "user" 5) 5
              ltac:(eexists; reflexivity)
              eq_refl eq_refl ltac:(done) ltac:(done) eq_refl) as (_ & Hfail & _).
  rewrite (Herror (VObj {[ "Error" := VStr "invalid grant" ]}) eq_refl eq_refl).
  rewrite (Hfail ltac:(discriminate)). split; reflexivity.
Defined.

(** X12.  The header of a request that [authorizedAsGuestApiRequest] has
    built, with a guest record that has not expired, resolves to "Bearer "
    followed by the guest token, with no call and no change of state,
    whatever the access-token slot holds; a guest token that is the empty
    string gives the header [null]. *)
Theorem valid_guest_token_is_the_guest_header
    (env : platform) (endpoint options : value) (w0 w : world)
    (m : gmap string json) (e : Z) (t : string) :
  built (authorizedAsGuestApiRequest env endpoint options w0) ->
  localStorage w !! GUEST_TOKEN_KEY = Some (Json (JObj m)) ->
  m !! "expires_at" = Some (JNum e) ->
  m !! "access_token" = Some (JStr t) ->
  0 <= clock w ->
  clock w < e ->
  header_of (authorizedAsGuestApiRequest env endpoint options w0) w
  = (Normal (Fulfilled (if String.eqb t "" then VNull else VStr ("Bearer " +:+ t))), w).
Proof.
  intros Hb Hs He Ht Hnow Hlt. rewrite guest_header_run by done.
  assert (getGuestToken env w = (Normal (Fulfilled (VStr t)), w)) as ->.
  { rewrite getGuestToken_run, Hs. cbn [JSON_parse].
    change (truthy (of_json (JObj m))) with true. cbv iota.
    rewrite (usable_record _ _ e) by done.
    destruct (Z.eqb_spec e 0); [lia|]. destruct (Z.ltb_spec (clock w) e); [|lia].
    by rewrite prop_record, Ht. }
  rewrite truthy_string. by destruct (String.eqb t "").
Qed.

Lemma valid_guest_token_is_the_guest_header_witness :
  header_of (authorizedAsGuestApiRequest silent (VStr "/members") VUndefined empty_state)
    guest_state
  = (Normal (Fulfilled (VStr "Bearer guest")), guest_state).
Proof.
  apply (valid_guest_token_is_the_guest_header silent (VStr "/members") VUndefined
           empty_state guest_state (token_record "guest" 9000) 9000 "guest"
           ltac:(eexists; reflexivity)
           eq_refl eq_refl eq_refl ltac:(done) ltac:(done)).
Defined.

(** ** Initialization *)

(** X13.  [initialize] accepts every value as options, [undefined] and
    [null] included, without throwing; it touches neither the storage nor
    the calls made; it replaces the whole configuration, keeping nothing of
    an earlier initialization.  Without options the API is the sandbox and
    no server is configured; an [apiRoot] given in the options is the URL
    of the API whatever [isProduction] says. *)
Theorem initialize_replaces_the_configuration
    (env : platform) (appKey options appKey' options' : value) (w : world) :
  (initialize env appKey options w).1 = Normal tt
  /\ localStorage (initialize env appKey options w).2 = localStorage w
  /\ sent (initialize env appKey options w).2 = sent w
  /\ initialize env appKey options (initialize env appKey' options' w).2
     = initialize env appKey options w
  /\ (truthy options = false ->
      vars (initialize env appKey options w).2
      = Config appKey (API_HOST_SANDBOX env) VNull VNull VNull VNull)
  /\ (truthy (option_of options "apiRoot") = true ->
      _apiUrl (vars (initialize env appKey options w).2) = prop options "apiRoot").
Proof.
  rewrite !initialize_run. cbn [fst snd vars localStorage clock sent _apiUrl].
  repeat (split; [done|]). split.
  - intros Hno. unfold option_or_null, option_of. by rewrite Hno, Hno.
  - by intros ->.
Qed.

Lemma initialize_replaces_the_configuration_witness :
  vars (initialize issuing (VStr "app") VUndefined stale_guest_state).2 = bare_config
  /\ _apiUrl (vars (initialize issuing (VStr "app")
                      (VObj {[ "apiRoot" := VStr "https://local.example";
                               "isProduction" := VBool true ]}) stale_guest_state).2)
     = VStr "https://local.example".
Proof.
  destruct (initialize_replaces_the_configuration issuing (VStr "app") VUndefined
              VNull VNull stale_guest_state) as (_ & _ & _ & _ & Hnone & _).
  destruct (initialize_replaces_the_configuration issuing (VStr "app")
              (VObj {[ "apiRoot" := VStr "https://local.example";
                       "isProduction" := VBool true ]})
              VNull VNull stale_guest_state) as (_ & _ & _ & _ & _ & Hroot).
  split; [exact (Hnone eq_refl)|]. rewrite (Hroot eq_refl). reflexivity.
Defined.

(** ** The validity check, twice *)

Lemma nlt_asym (x y : number) : nlt x y = true -> nlt y x = false.
Proof.
  destruct x as [x| |[]], y as [y| |[]]; cbn [nlt negb andb]; try done.
  intros H%Z.ltb_lt. apply Z.ltb_ge. lia.
Qed.

Lemma lt_number_asym env (e : value) (now : number) :
  lt env e (VNum now) = Normal true -> gt env e (VNum now) = Normal false.
Proof.
  unfold gt, lt, ToNumber, ToPrimitive, ToString.
  destruct e as [| |[]|n|s|l m|m]; cbn [and_then]; try (intros [= H]; by rewrite nlt_asym).
  all: destruct (string_of _); cbn [and_then]; try done.
  all: intros [= H]; by rewrite nlt_asym.
Qed.

Lemma lapsed_not_usable env (token : value) (now : Z) :
  lapsed env token now = Normal true -> usable env token now = Normal false.
Proof.
  unfold lapsed, usable, guard.
  destruct (truthy token && truthy (prop token "expires_at")); [|done].
  apply lt_number_asym.
Qed.

(** X14.  Asking [isAccessTokenValid] a second time, the clock standing
    still, gives the same answer (or the same error) and changes nothing
    more: the removal of an expired record happens once, and the answer is
    then false both times. *)
Theorem validity_check_is_idempotent (env : platform) (w : world) :
  isAccessTokenValid env (isAccessTokenValid env w).2 = isAccessTokenValid env w.
Proof.
  rewrite !isAccessTokenValid_run.
  destruct (JSON_parse (localStorage w !! ACCESS_TOKEN_KEY)) as [token|e] eqn:Hp;
    cbn [snd]; [|by rewrite Hp].
  destruct (lapsed env token (clock w)) as [[]|e] eqn:Hl.
  - rewrite (lapsed_not_usable _ _ _ Hl). cbn [snd].
    cbn [remove_access localStorage clock]. by rewrite lookup_delete_eq.
  - destruct (usable env token (clock w)) as [after|e] eqn:Hu; cbn [snd];
      by rewrite Hp, Hl, ?Hu.
  - destruct (usable env token (clock w)) as [after|e']; cbn [snd]; by rewrite Hp, Hl.
Qed.

(** ** The completion of a login *)

Lemma append_empty (s : string) : "" +:+ s = s.
Proof. done. Qed.

Lemma append_first (c : ascii) (s t : string) : String c s +:+ t = String c (s +:+ t).
Proof. done. Qed.

Lemma strip_trailing_slashes_spec (s : string) :
  exists tail,
    s = strip_trailing_slashes s +:+ tail
    /\ all_slashes tail = true
    /\ ends_in_slash (strip_trailing_slashes s) = false.
Proof.
  induction s as [|c s (tail & Hs & Htail & Hend)]; [by exists ""|].
  cbn [strip_trailing_slashes].
  destruct (strip_trailing_slashes s) as [|c' rest] eqn:Hstrip.
  - rewrite append_empty in Hs. subst tail.
    fold (is_slash c). destruct (is_slash c) eqn:Hc.
    + exists (String c s). rewrite append_empty. split; [done|].
      split; [|done]. cbn [all_slashes]. by rewrite Hc.
    + exists s. rewrite append_first, append_empty. split; [done|].
      split; [done|]. cbn [ends_in_slash]. done.
  - exists tail. rewrite append_first, <- Hs. by split.
Qed.

(** X15.  The code that [completeLogin] hands to the exchange is the code
    of the redirection without the slashes and backslashes at its end: the
    code found is the code sent followed by slashes only, and the code sent
    does not end with one.  (A code made of slashes only is sent as the
    empty string.) *)
Theorem exchanged_code_has_no_trailing_slash
    (env : platform) (isServer : value) (w : world) (s : string) :
  truthy isServer = true ->
  extractRedirectionCode env = VStr s ->
  s <> "" ->
  exists sent_code tail,
    completeLogin env isServer w = completeServerLogin env (VStr sent_code) w
    /\ s = sent_code +:+ tail
    /\ all_slashes tail = true
    /\ ends_in_slash sent_code = false.
Proof.
  intros Hserver Hcode Hs.
  destruct (strip_trailing_slashes_spec s) as (tail & Happ & Htail & Hend).
  exists (strip_trailing_slashes s), tail. split; [|done].
  unfold completeLogin. rewrite Hserver, Hcode. cbn [truthy].
  by destruct (String.eqb_spec s "").
Qed.

Lemma exchanged_code_has_no_trailing_slash_witness :
  exists sent_code tail,
    completeLogin issuing (VBool true) empty_state
      = completeServerLogin issuing (VStr sent_code) empty_state
    /\ "abc123///" = sent_code +:+ tail
    /\ all_slashes tail = true
    /\ ends_in_slash sent_code = false.
Proof.
  apply (exchanged_code_has_no_trailing_slash issuing (VBool true) empty_state
           "abc123///" eq_refl eq_refl ltac:(discriminate)).
Defined.

(** X16.  [completeLogin] fails before any call when the redirection
    brought nothing: in the server flow without a code its promise is
    rejected with 'No code supplied', in the implicit flow without an
    [access_token] with 'No access_token supplied', and the state is what it
    was.  In the implicit flow with an [access_token] it resolves at once
    to that token, having stored it as [completeImplicitLogin] does, unless
    the lifetime that the redirection brought cannot be converted: it then
    throws what [parseInt] throws, and the state is what it was. *)
Theorem login_completion_needs_what_the_redirection_brought
    (env : platform) (isServer : value) (w : world) :
  (truthy isServer = true ->
   truthy (extractRedirectionCode env) = false ->
   completeLogin env isServer w
   = (Normal (Rejected (Error (VStr "No code supplied"))), w))
  /\ (truthy isServer = false ->
      truthy (option_of (extractRedirectionTokenData env) "access_token") = false ->
      completeLogin env isServer w
      = (Normal (Rejected (Error (VStr "No access_token supplied"))), w))
  /\ (truthy isServer = false ->
      truthy (option_of (extractRedirectionTokenData env) "access_token") = true ->
      completeLogin env isServer w
      = match parseInt (prop (extractRedirectionTokenData env) "expires_in") with
        | Normal _ =>
            (Normal (Fulfilled (prop (extractRedirectionTokenData env) "access_token")),
             (completeImplicitLogin
                (prop (extractRedirectionTokenData env) "access_token")
                (prop (extractRedirectionTokenData env) "expires_in") w).2)
        | Throw e => (Throw e, w)
        end).
Proof.
  split; [|split].
  - intros Hserver Hcode. unfold completeLogin. by rewrite Hserver, Hcode.
  - intros Hserver Hdata. unfold completeLogin. rewrite Hserver.
    rewrite (bind_val _ _ _ _ _ (option_run (extractRedirectionTokenData env) "access_token" w)).
    by rewrite Hdata.
  - intros Hserver Hdata. rewrite completeLogin_implicit by done.
    rewrite completeImplicitLogin_run. unfold expiry.
    by destruct (parseInt _).
Qed.

Lemma login_completion_needs_what_the_redirection_brought_witness :
  completeLogin no_redirection (VBool true) empty_state
  = (Normal (Rejected (Error (VStr "No code supplied"))), empty_state)
  /\ completeLogin no_redirection (VBool false) empty_state
     = (Normal (Rejected (Error (VStr "No access_token supplied"))), empty_state)
  /\ (completeLogin implicit_redirection VUndefined empty_state).1
     = Normal (Fulfilled (VStr "user")).
Proof.
  destruct (login_completion_needs_what_the_redirection_brought no_redirection
              (VBool true) empty_state) as (Hcode & _ & _).
  destruct (login_completion_needs_what_the_redirection_brought no_redirection
              (VBool false) empty_state) as (_ & Htoken & _).
  destruct (login_completion_needs_what_the_redirection_brought implicit_redirection
              VUndefined empty_state) as (_ & _ & Himplicit).
  split; [exact (Hcode eq_refl eq_refl)|]. split; [exact (Htoken eq_refl eq_refl)|].
  rewrite (Himplicit eq_refl eq_refl). reflexivity.
Defined.

(** ** The name of the API *)

Lemma split_dot_head (s piece : string) :
  occurs "." piece = false ->
  exists name, head (split_from "." 0 piece s) = Some name /\ occurs "." name = false.
Proof.
  revert piece. induction s as [|c s IH]; intros piece Hpiece; [by exists piece|].
  cbn [split_from String.prefix].
  destruct (Ascii.ascii_dec "." c) as [<-|Hc].
  - exists piece. by destruct s.
  - apply IH. clear IH. induction piece as [|c' piece IHp].
    + rewrite append_empty. cbn [occurs].
      destruct (Ascii.eqb_spec "."%char c); [done|done].
    + rewrite append_first. cbn [occurs] in *.
      apply orb_false_iff in Hpiece as [-> Hpiece]. by rewrite IHp.
Qed.

(** X17.  [getApiName] changes nothing.  It throws a [TypeError] when the
    URL of the API is a truthy value that is not a string; before the
    initialization (the URL is the empty string) its answer is the empty
    string; otherwise its answer is a string without a dot, and never the
    string "api". *)
Theorem api_name_is_a_label_and_never_api (w : world) :
  (getApiName w).2 = w
  /\ match _apiUrl (vars w) with
     | VStr s =>
         exists name,
           (getApiName w).1 = Normal (VStr name)
           /\ name <> "api"
           /\ occurs "." name = false
           /\ (s = "" -> name = "")
     | url =>
         (getApiName w).1
         = if truthy url then Throw TypeError else Normal (VStr "")
     end.
Proof.
  unfold getApiName.
  rewrite (bind_val _ _ w (_apiUrl (vars w)) w) by done.
  destruct (_apiUrl (vars w)) as [| |b|n|s|l m|m].
  1-2, 6-7: by split.
  - split; by destruct b.
  - split; by destruct (truthy (VNum n)).
  - rewrite truthy_string. destruct (String.eqb_spec s "") as [->|Hs]; cbn [negb].
    { split; [done|]. by exists "". }
    split; [done|].
    assert (exists name,
      (if 1 <? Z.of_nat (length (split s "//"))
       then default "" (head (split (default "" (split s "//" !! 1%nat)) "."))
       else "") = name /\ occurs "." name = false) as (name & -> & Hdot).
    { destruct (1 <? _); [|by exists ""].
      destruct (split_dot_head (default "" (split s "//" !! 1%nat)) "" eq_refl)
        as (name & Hname & Hdot).
      exists name. split; [|done].
      change (split (default "" (split s "//" !! 1%nat)) ".")
        with (split_from "." 0 "" (default "" (split s "//" !! 1%nat))).
      by rewrite Hname. }
    destruct (String.eqb_spec name "api") as [->|Hname].
    + exists "production". cbn [ret fst]. by split.
    + exists name. cbn [ret fst]. by split.
Qed.

Lemma api_name_is_a_label_and_never_api_witness :
  (getApiName (state_at (VStr ""))).1 = Normal (VStr "")
  /\ (getApiName (state_at (VNum (Int 5)))).1 = Throw TypeError.
Proof.
  destruct (api_name_is_a_label_and_never_api (state_at (VStr "")))
    as (_ & name & Hname & _ & _ & Hempty).
  destruct (api_name_is_a_label_and_never_api (state_at (VNum (Int 5)))) as (_ & Hthrow).
  split; [|exact Hthrow]. rewrite Hname. by rewrite (Hempty eq_refl).
Defined.

Lemma append_empty_r (s : string) : s +:+ "" = s.
Proof. induction s as [|c s IH]; [done|]. by rewrite append_first, IH. Qed.

Lemma append_assoc (s t u : string) : (s +:+ t) +:+ u = s +:+ t +:+ u.
Proof. induction s as [|c s IH]; [done|]. by rewrite !append_first, IH. Qed.

Lemma prefix_empty (s : string) : String.prefix "" s = true.
Proof. by destruct s. Qed.

(** A run of characters that cannot start a separator goes to the piece. *)
Lemma split_from_pass (c0 : ascii) (sep' l piece x : string) :
  occurs c0 l = false ->
  split_from (String c0 sep') 0 piece (l +:+ x)
  = split_from (String c0 sep') 0 (piece +:+ l) x.
Proof.
  revert piece. induction l as [|c l IH]; intros piece Hl.
  - by rewrite append_empty, append_empty_r.
  - cbn [occurs] in Hl. apply orb_false_iff in Hl as [Hc Hl].
    rewrite append_first. cbn [split_from String.prefix].
    destruct (Ascii.ascii_dec c0 c) as [->|_]; [by rewrite Ascii.eqb_refl in Hc|].
    rewrite IH by done. by rewrite append_assoc, append_first, append_empty.
Qed.

Lemma split_from_head (sep s piece : string) (skip : nat) :
  exists y, head (split_from sep skip piece s) = Some (piece +:+ y).
Proof.
  revert piece skip. induction s as [|c s IH]; intros piece skip.
  - exists "". by rewrite append_empty_r.
  - cbn [split_from]. destruct skip as [|k]; [|apply IH].
    destruct (String.prefix sep (String c s)).
    + exists "". by rewrite append_empty_r.
    + destruct (IH (piece +:+ String c "") 0%nat) as [y Hy].
      exists (String c y). by rewrite Hy, append_assoc, append_first, append_empty.
Qed.

(** X18.  For an API at [scheme//label.rest], where the scheme has no
    slash and the label neither a slash nor a dot (as in
    [https://sandbox.spark.autodesk.com/api/v1]), [getApiName] answers the
    label that starts the name of the host, and "production" when that
    label is "api". *)
Theorem api_name_is_the_first_label_of_the_host
    (w : world) (scheme label rest : string) :
  _apiUrl (vars w) = VStr (scheme +:+ "//" +:+ label +:+ "." +:+ rest) ->
  occurs "/" scheme = false ->
  occurs "/" label = false ->
  occurs "." label = false ->
  getApiName w
  = (Normal (VStr (if String.eqb label "api" then "production" else label)), w).
Proof.
  intros Hurl Hscheme Hslash Hdot. unfold getApiName.
  rewrite (bind_val _ _ w (_apiUrl (vars w)) w) by done. rewrite Hurl.
  assert (truthy (VStr (scheme +:+ "//" +:+ label +:+ "." +:+ rest)) = true) as ->.
  { rewrite truthy_string. by destruct scheme. }
  assert (exists y, split (scheme +:+ "//" +:+ label +:+ "." +:+ rest) "//"
                    = scheme :: split_from "//" 0 "" (label +:+ "." +:+ rest)
                    /\ head (split_from "//" 0 "" (label +:+ "." +:+ rest))
                       = Some (label +:+ "." +:+ y)) as (y & Hpieces & Hhost).
  { destruct (split_from_head "//" rest (label +:+ ".") 0) as [y Hy].
    exists y. split.
    - unfold split. rewrite (split_from_pass "/" "/") by done.
      rewrite append_empty, !append_first, append_empty.
      cbn [split_from String.prefix]. destruct (Ascii.ascii_dec "/" "/"); [|done].
      by rewrite prefix_empty.
    - rewrite (split_from_pass "/" "/") by done.
      rewrite append_empty, !append_first, append_empty.
      cbn [split_from String.prefix]. destruct (Ascii.ascii_dec "/" "."); [done|].
      rewrite append_assoc in Hy. exact Hy. }
  rewrite Hpieces. clear Hpieces.
  destruct (split_from "//" 0 "" (label +:+ "." +:+ rest)) as [|host more];
    [done|]. cbn [head] in Hhost. injection Hhost as ->.
  cbn [length lookup list_lookup default from_option id].
  assert (split (label +:+ "." +:+ y) "." = label :: split_from "." 0 "" y) as ->.
  { unfold split. rewrite (split_from_pass "." "") by done.
    rewrite append_empty, !append_first, append_empty.
    cbn [split_from String.prefix]. destruct (Ascii.ascii_dec "." "."); [|done].
    by rewrite prefix_empty. }
  destruct (1 <? _) eqn:Hlen; [done|].
  apply Z.ltb_ge in Hlen. cbn [length] in Hlen. lia.
Qed.

Lemma api_name_is_the_first_label_of_the_host_witness :
  getApiName (state_at (VStr "https://sandbox.spark.autodesk.com/api/v1"))
  = (Normal (VStr "sandbox"), state_at (VStr "https://sandbox.spark.autodesk.com/api/v1"))
  /\ getApiName (state_at (VStr "https://api.spark.autodesk.com/api/v1"))
     = (Normal (VStr "production"),
        state_at (VStr "https://api.spark.autodesk.com/api/v1")).
Proof.
  split.
  - apply (api_name_is_the_first_label_of_the_host
             (state_at (VStr "https://sandbox.spark.autodesk.com/api/v1"))
             "https:" "sandbox" "spark.autodesk.com/api/v1"
             eq_refl eq_refl eq_refl eq_refl).
  - apply (api_name_is_the_first_label_of_the_host
             (state_at (VStr "https://api.spark.autodesk.com/api/v1"))
             "https:" "api" "spark.autodesk.com/api/v1"
             eq_refl eq_refl eq_refl eq_refl).
Defined.

(** ** After a refresh *)

(** X19.  After a refresh that brought the token [t] with a lifetime of [n]
    seconds (the time of the expiry being computed without rounding), in
    every later state that still holds the record (the clock at or after
    the epoch): [getAccessToken] returns [t]; [isAccessTokenValid] is true
    exactly while the clock is before the time of the answer plus
    [n * 1000] milliseconds; and up to that time, that very instant
    included, the header of a request that [authorizedApiRequest] has built
    is "Bearer t", without another refresh.  At the instant of the expiry
    the token is thus reported invalid and still sent. *)
Theorem refreshed_token_is_used_until_it_expires
    (env env' : platform) (endpoint options : value) (w w0 later : world)
    (r : gmap string value) (t : string) (n : Z) :
  truthy (_refreshTokenUrl (vars w)) = true ->
  settled (respond env (refresh_call w)) = Fulfilled (VObj r) ->
  truthy (prop (VObj r) "Error") = false ->
  r !! "access_token" = Some (VStr t) ->
  t <> "" ->
  parseInt (prop (VObj r) "expires_in") = Normal (Int n) ->
  let expiry_time := clock w + elapsed (respond env (refresh_call w)) + n * 1000 in
  exact (n * 1000) ->
  exact expiry_time ->
  localStorage later !! ACCESS_TOKEN_KEY
    = localStorage (refreshAccessToken env w).2 !! ACCESS_TOKEN_KEY ->
  0 <= clock later ->
  getAccessToken later = (Normal (VStr t), later)
  /\ (isAccessTokenValid env' later).1 = Normal (clock later <? expiry_time)
  /\ (built (authorizedApiRequest env' endpoint options w0) ->
      clock later <= expiry_time ->
      header_of (authorizedApiRequest env' endpoint options w0) later
      = (Normal (Fulfilled (VStr ("Bearer " +:+ t))), later)).
Proof.
  intros Hurl Hreply Herr Ht Hne Hn expiry_time Hproduct Hsum Hslot Hnow.
  rewrite (refreshAccessToken_stored env w r) in Hslot by done.
  cbn [clock called] in Hslot. rewrite (expiry_seconds _ n) in Hslot by done.
  cbn [snd localStorage] in Hslot. rewrite lookup_insert_eq in Hslot.
  fold expiry_time in Hslot.
  set (M := delete "refresh_token" (<["expires_at" := VNum (Int expiry_time)]> r)) in Hslot.
  assert (M !! "expires_at" = Some (VNum (Int expiry_time))) as HE
    by (unfold M; by rewrite lookup_delete_ne, lookup_insert_eq).
  assert (M !! "access_token" = Some (VStr t)) as HT
    by (unfold M; by rewrite lookup_delete_ne, lookup_insert_ne).
  split; [|split].
  - rewrite getAccessToken_run, Hslot. cbn [JSON_parse].
    rewrite (stamped_token _ t) by done.
    change (truthy (of_json (JObj ?m))) with true. cbn [andb].
    rewrite truthy_string. by destruct (String.eqb_spec t "").
  - eapply isAccessTokenValid_answer; [by rewrite Hslot|].
    by rewrite (usable_stamped _ _ expiry_time).
  - intros Hb Hle.
    rewrite (user_header_run env' endpoint options (of_json (JObj (omap to_json M))))
      by (by rewrite ?Hslot).
    rewrite (refresh_due_record _ _ _ expiry_time) by (by rewrite lookup_omap, HE).
    destruct (Z.ltb_spec expiry_time (clock later)); [lia|]. rewrite andb_false_r.
    by rewrite (stamped_token _ t).
Qed.

Lemma refreshed_token_is_used_until_it_expires_witness :
  (isAccessTokenValid silent
     (World full_config (localStorage (refreshAccessToken issuing refreshable_state).2)
        3600260 [])).1
  = Normal false
  /\ header_of (authorizedApiRequest silent (VStr "/members") VUndefined empty_state)
       (World full_config (localStorage (refreshAccessToken issuing refreshable_state).2)
          3600260 [])
     = (Normal (Fulfilled (VStr "Bearer fresh")),
        World full_config (localStorage (refreshAccessToken issuing refreshable_state).2)
          3600260 []).
Proof.
  destruct (refreshed_token_is_used_until_it_expires issuing silent (VStr "/members")
              VUndefined refreshable_state empty_state
              (World full_config
                 (localStorage (refreshAccessToken issuing refreshable_state).2)
                 3600260 [])
              {[ "access_token" := VStr "fresh"; "expires_in" := VNum (Int 3600);
                 "refresh_token" := VStr "secret" ]} "fresh" 3600
              eq_refl eq_refl eq_refl eq_refl ltac:(discriminate) eq_refl eq_refl eq_refl
              eq_refl ltac:(done)) as (_ & Hvalid & Hheader).
  split; [exact Hvalid|]. apply Hheader; [eexists; reflexivity|].
  vm_compute. discriminate.
Defined.

(** ** The URL of the login *)

Lemma add_string_r env (a : value) (s : string) :
  add env a (VStr s)
  = match string_of a with
    | Some x => Normal (VStr (x +:+ s))
    | None => Throw TypeError
    end.
Proof.
  unfold add, ToPrimitive, ToString.
  destruct a as [| |[]|n|x|l m|m]; try done.
  all: by destruct (string_of _).
Qed.

Lemma add_string_l env (s : string) (b : value) :
  add env (VStr s) b
  = match string_of b with
    | Some x => Normal (VStr (s +:+ x))
    | None => Throw TypeError
    end.
Proof.
  unfold add, ToPrimitive, ToString.
  destruct b as [| |[]|n|x|l m|m]; try done.
  all: by destruct (string_of _).
Qed.

(** X20.  [getLoginRedirectUrl] changes nothing.  It throws a [TypeError]
    when the URL of the API, the client id or the redirection URI (the
    configured one, or else the calculated one) has no string.  Otherwise
    it returns the URL of the API, the path [/oauth/authorize], the
    response type ([code] for the server flow, [token] otherwise), the
    client id and the redirection URI, each written as a string and none
    of them encoded, followed by [&register=true] when the register screen
    is asked for. *)
Theorem login_url_is_a_plain_concatenation
    (env : platform) (showRegisterScreen isServerLogin : value) (w : world) :
  getLoginRedirectUrl env showRegisterScreen isServerLogin w
  = (match string_of (_apiUrl (vars w)),
           string_of (_clientId (vars w)),
           string_of (or_ (_redirectUri (vars w)) (calculateRedirectUri env)) with
     | Some api, Some client, Some redirect =>
         Normal (VStr (
           api +:+ "/oauth/authorize?response_type="
           +:+ (if truthy isServerLogin then "code" else "token")
           +:+ "&client_id=" +:+ client
           +:+ "&redirect_uri=" +:+ redirect
           +:+ (if truthy showRegisterScreen then "&register=true" else "")))
     | _, _, _ => Throw TypeError
     end, w).
Proof.
  unfold getLoginRedirectUrl.
  rewrite (bind_val _ _ w (_redirectUri (vars w)) w) by done.
  rewrite (bind_val _ _ w (_apiUrl (vars w)) w) by done.
  rewrite (bind_val _ _ w (_clientId (vars w)) w) by done.
  rewrite add_string_r.
  destruct (string_of (_apiUrl (vars w))) as [api|];
    [|by erewrite bind_throw by reflexivity].
  step.
  assert (forall s, add env (VStr s) (if truthy isServerLogin then VStr "code" else VStr "token")
                    = Normal (VStr (s +:+ (if truthy isServerLogin then "code" else "token"))))
    as -> by (intros; by destruct (truthy isServerLogin)).
  do 2 step. rewrite add_string_l.
  destruct (string_of (_clientId (vars w))) as [client|];
    [|by erewrite bind_throw by reflexivity].
  do 2 step. rewrite add_string_l.
  destruct (string_of (or_ _ _)) as [redirect|];
    [|by erewrite bind_throw by reflexivity].
  step. rewrite !append_assoc.
  destruct (truthy showRegisterScreen).
  - unfold lift. rewrite add_string_r. cbn [string_of]. by rewrite !append_assoc.
  - by rewrite append_empty_r.
Qed.

(** ** What a request is bound to *)

(** X21.  A request is built exactly when its URL, the URL of the API
    followed by the endpoint, can be formed; building it changes nothing,
    and throws what the concatenation throws when it cannot.  The URL is
    fixed when the request is built; the authorization header is resolved
    when the request is sent: a request built before a login sends the
    token of that login (no refresh server being configured), and no token
    after the logout that follows. *)
Theorem request_binds_its_url_not_its_token
    (env : platform) (endpoint options expiresIn : value) (w0 w : world)
    (t : string) (n : number) :
  (authorizedApiRequest env endpoint options w0).2 = w0
  /\ (forall e, add env (_apiUrl (vars w0)) endpoint = Throw e ->
      (authorizedApiRequest env endpoint options w0).1 = Throw e)
  /\ (forall url, add env (_apiUrl (vars w0)) endpoint = Normal url ->
      exists r,
        (authorizedApiRequest env endpoint options w0).1 = Normal r
        /\ request_url r = url
        /\ request_options r = or_ options (VObj ∅))
  /\ (built (authorizedApiRequest env endpoint options w0) ->
      truthy (_refreshTokenUrl (vars w)) = false ->
      parseInt expiresIn = Normal n ->
      let logged_in := (completeImplicitLogin (VStr t) expiresIn w).2 in
      header_of (authorizedApiRequest env endpoint options w0) logged_in
      = (Normal (Fulfilled (VStr ("Bearer " +:+ t))), logged_in)
      /\ header_of (authorizedApiRequest env endpoint options w0) (logout logged_in).2
         = (Normal (Fulfilled VNull), (logout logged_in).2)).
Proof.
  split; [|split; [|split]].
  - unfold authorizedApiRequest.
    rewrite (bind_val _ _ w0 (_apiUrl (vars w0)) w0) by done.
    unfold bind, lift, ret. by destruct (add env _ endpoint).
  - intros e He. unfold authorizedApiRequest.
    rewrite (bind_val _ _ w0 (_apiUrl (vars w0)) w0) by done.
    by rewrite (bind_throw _ _ w0 e w0) by (unfold lift; by rewrite He).
  - intros url Hurl. unfold authorizedApiRequest.
    rewrite (bind_val _ _ w0 (_apiUrl (vars w0)) w0) by done.
    rewrite (bind_val _ _ w0 url w0) by (unfold lift; by rewrite Hurl).
    by eexists.
  - intros Hb Hrefresh Hn logged_in. split.
    + assert (exists expires_at,
        localStorage logged_in !! ACCESS_TOKEN_KEY
        = Some (Json (JObj (omap to_json
            (<["expires_at" := expires_at]> (<["access_token" := VStr t]> ∅)))))
        /\ vars logged_in = vars w) as (expires_at & Hslot & Hvars).
      { unfold logged_in. rewrite completeImplicitLogin_run. unfold expiry. rewrite Hn.
        cbn [and_then snd localStorage vars]. rewrite lookup_insert_eq.
        by eexists. }
      rewrite (user_header_run env endpoint options _ w0 logged_in Hb)
        by (by rewrite ?Hslot).
      unfold refresh_due. rewrite Hvars, Hrefresh. cbn [andb].
      rewrite (stamped_token _ t) by (by rewrite lookup_insert_ne, lookup_insert_eq).
      done.
    + rewrite header_of_user by done. unfold new_Promise.
      rewrite (bind_val _ _ _ (localStorage (logout logged_in).2 !! ACCESS_TOKEN_KEY)
                 (logout logged_in).2) by done.
      assert (localStorage (logout logged_in).2 !! ACCESS_TOKEN_KEY = None) as ->
        by apply lookup_delete_eq.
      done.
Qed.

Lemma request_binds_its_url_not_its_token_witness :
  header_of (authorizedApiRequest silent (VStr "/members") VUndefined expired_state)
    (completeImplicitLogin (VStr "user") (VStr "3600") expired_state).2
  = (Normal (Fulfilled (VStr "Bearer user")),
     (completeImplicitLogin (VStr "user") (VStr "3600") expired_state).2)
  /\ (authorizedApiRequest silent (VObj {[ "toString" := VNull ]}) VUndefined
        expired_state).1
     = Throw TypeError.
Proof.
  destruct (request_binds_its_url_not_its_token silent (VStr "/members") VUndefined
              (VStr "3600") expired_state expired_state "user" (Int 3600))
    as (_ & _ & _ & Hheader).
  destruct (request_binds_its_url_not_its_token silent (VObj {[ "toString" := VNull ]})
              VUndefined (VStr "3600") expired_state expired_state "user" (Int 3600))
    as (_ & Hthrow & _).
  split.
  - exact (proj1 (Hheader ltac:(eexists; reflexivity) eq_refl eq_refl)).
  - exact (Hthrow TypeError eq_refl).
Defined.

(** ** What the guest slot keeps *)

(** X22.  Guest-token issuance stores the answer of the server whole, when
    the answer is an object whose lifetime can be converted: every member
    of the answer other than [expires_at] is in the record stored under the
    guest-token key, a [refresh_token] included; nothing is stripped, unlike
    what is stored under the access-token key. *)
Theorem guest_record_is_stored_whole
    (env : platform) (w : world) (m : gmap string value) (expires_at : value) :
  truthy (_guestTokenUrl (vars w)) = true ->
  settled (respond env (guest_call w)) = Fulfilled (VObj m) ->
  expiry (Int (clock w + elapsed (respond env (guest_call w))))
    (prop (VObj m) "expires_in") = Normal expires_at ->
  exists stored,
    localStorage (getGuestTokenFromServer env w).2 !! GUEST_TOKEN_KEY
    = Some (Json (JObj stored))
    /\ (forall p, p <> "expires_at" -> stored !! p = m !! p ≫= to_json)
    /\ stored !! "expires_at" = to_json expires_at.
Proof.
  intros Hurl Hreply Hexpiry. rewrite (getGuestTokenFromServer_stored env w m) by done.
  cbn [clock called]. rewrite Hexpiry. cbn [snd localStorage]. rewrite lookup_insert_eq.
  eexists. split; [reflexivity|]. split.
  - intros p Hp. by rewrite lookup_omap, lookup_insert_ne.
  - by rewrite lookup_omap, lookup_insert_eq.
Qed.

Lemma guest_record_is_stored_whole_witness :
  exists stored,
    localStorage (getGuestTokenFromServer issuing empty_state).2 !! GUEST_TOKEN_KEY
    = Some (Json (JObj stored))
    /\ stored !! "refresh_token" = Some (JStr "secret")
    /\ stored !! "expires_at" = Some (JNum 3600260).
Proof.
  destruct (guest_record_is_stored_whole issuing empty_state
              {[ "access_token" := VStr "fresh"; "expires_in" := VNum (Int 3600);
                 "refresh_token" := VStr "secret" ]} (VNum (Int 3600260))
              eq_refl eq_refl eq_refl)
    as (stored & Hstored & Hmembers & Hexpiry).
  exists stored. split; [exact Hstored|]. split.
  - rewrite (Hmembers "refresh_token") by discriminate. reflexivity.
  - rewrite Hexpiry. reflexivity.
Defined.

(** ** A lifetime that cannot be converted *)

(** X23.  When the lifetime cannot be converted to a string (it is an
    object or an array that has no string, so that [parseInt] throws a
    [TypeError]), no writer stores anything: the completion of an implicit
    login throws the [TypeError] and leaves the state as it is; guest-token
    issuance, the exchange of a code and the refresh have made their call,
    and their promise is rejected with the [TypeError]. *)
Theorem unreadable_lifetime_stores_nothing
    (env : platform) (code accessToken : value) (w : world) (m : gmap string value) :
  convertible (prop (VObj m) "expires_in") = false ->
  completeImplicitLogin accessToken (prop (VObj m) "expires_in") w = (Throw TypeError, w)
  /\ (truthy (_guestTokenUrl (vars w)) = true ->
      settled (respond env (guest_call w)) = Fulfilled (VObj m) ->
      getGuestTokenFromServer env w
      = (Normal (Rejected TypeError), called env (guest_call w) w))
  /\ (truthy (_accessTokenUrl (vars w)) = true ->
      settled (respond env (exchange_call env code w)) = Fulfilled (VObj m) ->
      truthy (prop (VObj m) "access_token") = true ->
      completeServerLogin env code w
      = (Normal (Rejected TypeError), called env (exchange_call env code w) w))
  /\ (truthy (_refreshTokenUrl (vars w)) = true ->
      settled (respond env (refresh_call w)) = Fulfilled (VObj m) ->
      truthy (prop (VObj m) "Error") = false ->
      refreshAccessToken env w
      = (Normal (Rejected TypeError), called env (refresh_call w) w)).
Proof.
  intros Hc.
  assert (forall now, expiry now (prop (VObj m) "expires_in") = Throw TypeError) as Hexpiry.
  { intros now. unfold expiry, parseInt, ToString. unfold convertible in Hc.
    by destruct (string_of _). }
  split; [|split; [|split]].
  - by rewrite completeImplicitLogin_run, Hexpiry.
  - intros Hurl Hreply. by rewrite (getGuestTokenFromServer_stored env w m), Hexpiry.
  - intros Hurl Hreply Htoken.
    destruct (completeServerLogin_called env code w Hurl) as (cb & -> & Hcb & _).
    rewrite Hreply, Hcb, Hexpiry; [done|].
    unfold exchanged. rewrite Htoken, (unconvertible_truthy _ Hc). done.
  - intros Hurl Hreply Herr. by rewrite (refreshAccessToken_stored env w m), Hexpiry.
Qed.

Lemma unreadable_lifetime_stores_nothing_witness :
  completeImplicitLogin (VStr "user") (VObj {[ "toString" := VNum (Int 1) ]}) empty_state
  = (Throw TypeError, empty_state)
  /\ refreshAccessToken garbling refreshable_state
     = (Normal (Rejected TypeError),
        called garbling (refresh_call refreshable_state) refreshable_state)
  /\ localStorage (completeServerLogin garbling (VStr "abc123") refreshable_state).2
     = localStorage refreshable_state.
Proof.
  assert (convertible (prop (VObj oddity) "expires_in") = false) as Hodd by reflexivity.
  destruct (unreadable_lifetime_stores_nothing garbling (VStr "abc123") (VStr "user")
              empty_state oddity Hodd) as (Himplicit & _).
  destruct (unreadable_lifetime_stores_nothing garbling (VStr "abc123") (VStr "user")
              refreshable_state oddity Hodd) as (_ & _ & Hexchange & Hrefresh).
  split; [exact Himplicit|]. split; [exact (Hrefresh eq_refl eq_refl eq_refl)|].
  rewrite (Hexchange eq_refl eq_refl eq_refl). reflexivity.
Defined.
